(** * VortexScheduler, exp/dynamic_batch_size/main.py

    A shallow embedding of the discrete-event simulation engine of
    [main.py]: the [Request] class, the admission controller
    [drop_requests], the arrival gate [fetch_new_requests], the argument
    validation and the body of the event loop, followed by the properties
    the specification states about them.

    Simulated times are Python floats.  The engine only adds, subtracts,
    multiplies and compares them, so it is embedded over an arbitrary
    carrier with these operations ([TimeOps]); the instance [float_ops]
    is IEEE binary64, the arithmetic the program runs on.  Properties that
    need the comparisons to form a total order are stated over [TimeOrder],
    which exact arithmetic satisfies (instance [xtime_order]) and binary64
    satisfies away from NaN. *)

From Stdlib Require Import ZArith Bool Lia Floats Sorted.
From stdpp Require Import gmap gmultiset list strings.

Local Open Scope Z_scope.

(** ** Times *)

Class TimeOps (T : Type) := {
  tadd : T → T → T;
  tsub : T → T → T;
  tmul : T → T → T;
  tltb : T → T → bool;
  tleb : T → T → bool;
  teqb : T → T → bool;
  tzero : T;
  tinf : T;                       (* math.inf *)
}.

(** Python's floats. *)
#[export] Instance float_ops : TimeOps float := {|
  tadd := PrimFloat.add;
  tsub := PrimFloat.sub;
  tmul := PrimFloat.mul;
  tltb := PrimFloat.ltb;
  tleb := PrimFloat.leb;
  teqb := PrimFloat.eqb;
  tzero := 0%float;
  tinf := infinity;
|}.

(** The order facts about times that some properties rely on. *)
Class TimeOrder (T : Type) `{TimeOps T} := {
  tleb_refl : ∀ a : T, tleb a a = true;
  tleb_trans : ∀ a b c : T, tleb a b = true → tleb b c = true → tleb a c = true;
  tleb_total : ∀ a b : T, tleb a b = false → tleb b a = true;
  tltb_tleb : ∀ a b : T, tltb a b = negb (tleb b a);
  tleb_inf : ∀ a : T, tleb a tinf = true;
  tadd_nonneg : ∀ a d : T, tleb tzero d = true → tleb a (tadd a d) = true;
  teqb_sym : ∀ a b : T, teqb a b = teqb b a;
}.

(** Exact times: an integer number of ticks, or [math.inf]. *)
Inductive xtime := Fin (z : Z) | PInf.

Definition xadd (a b : xtime) : xtime :=
  match a, b with Fin x, Fin y => Fin (x + y) | _, _ => PInf end.
Definition xsub (a b : xtime) : xtime :=
  match a, b with Fin x, Fin y => Fin (x - y) | _, _ => PInf end.
Definition xmul (a b : xtime) : xtime :=
  match a, b with Fin x, Fin y => Fin (x * y) | _, _ => PInf end.
Definition xleb (a b : xtime) : bool :=
  match a, b with
  | Fin x, Fin y => x <=? y
  | _, PInf => true
  | PInf, Fin _ => false
  end.
Definition xltb (a b : xtime) : bool := negb (xleb b a).
Definition xeqb (a b : xtime) : bool :=
  match a, b with
  | Fin x, Fin y => x =? y
  | PInf, PInf => true
  | _, _ => false
  end.

#[export] Instance xtime_ops : TimeOps xtime := {|
  tadd := xadd; tsub := xsub; tmul := xmul;
  tltb := xltb; tleb := xleb; teqb := xeqb;
  tzero := Fin 0; tinf := PInf;
|}.

(** ** Exceptions *)

Inductive exn :=
  | KeyError (key : Z)
  | IndexError
  | AssertionError (msg : string)
  | NameError (name : string).

Inductive result (A : Type) :=
  | Ok (a : A)
  | Raise (e : exn).
Arguments Ok {A} a.
Arguments Raise {A} e.

#[export] Instance result_ret : MRet result := λ A a, Ok a.
#[export] Instance result_bind : MBind result := λ A B f c,
  match c with Ok a => f a | Raise e => Raise e end.

(** ** The event classes of the loop (class [Event]) *)

Inductive Event := CHECK_PREEMPTION | BATCH_FINISHED | NEW_REQS_ARRIVED.

#[export] Instance Event_eq_dec : EqDecision Event.
Proof. solve_decision. Defined.

Section Engine.
Context {T : Type} `{TimeOps T}.

(** The throughput profile, the module-level dict [batch_runtimes]
    (batch size to mean runtime), filled before any request is built. *)
Variable batch_runtimes : gmap Z T.

(** [batch_runtimes[k]] *)
Definition runtime (k : Z) : result T :=
  match batch_runtimes !! k with
  | Some d => Ok d
  | None => Raise (KeyError k)
  end.

(** ** class Request *)

Record Request := {
  arrival_time : T;
  id : Z;
  queue_time : option T;
  dropped_time : option T;
  execution_time : option T;
  finish_time : option T;
  batch_size : option nat;
  slo_factor : T;
  deadline : T;
}.

(** [Request.__init__] *)
Definition Request_init (arrival : T) (i : Z) (slo : T) : result Request :=
  d1 ← runtime 1;
  Ok {| arrival_time := arrival;
        id := i;
        queue_time := None;
        dropped_time := None;
        execution_time := None;
        finish_time := None;
        batch_size := None;
        slo_factor := slo;
        deadline := tadd arrival (tmul slo d1) |}.

(** [Request.schedule] *)
Definition Request_schedule (self : Request) (now : T) (bsize : nat)
    (batch_runtime : T) : Request :=
  {| arrival_time := arrival_time self;
     id := id self;
     queue_time := Some (tsub now (arrival_time self));
     dropped_time := dropped_time self;
     execution_time := Some batch_runtime;
     finish_time := Some (tadd now batch_runtime);
     batch_size := Some bsize;
     slo_factor := slo_factor self;
     deadline := deadline self |}.

(** [Request.preempt] *)
Definition Request_preempt (self : Request) : Request :=
  {| arrival_time := arrival_time self;
     id := id self;
     queue_time := None;
     dropped_time := dropped_time self;
     execution_time := None;
     finish_time := None;
     batch_size := None;
     slo_factor := slo_factor self;
     deadline := deadline self |}.

(** [Request.get_dropped] *)
Definition Request_get_dropped (self : Request) (now : T) : Request :=
  {| arrival_time := arrival_time self;
     id := id self;
     queue_time := queue_time self;
     dropped_time := Some now;
     execution_time := execution_time self;
     finish_time := finish_time self;
     batch_size := batch_size self;
     slo_factor := slo_factor self;
     deadline := deadline self |}.

(** ** SortedQueue *)

(** Modelled from the spec: the class [SortedQueue] of [utils.py], which
    is not part of the sources at hand.  The specification describes an
    ordered container with "append preserving sort order, peek-minimum,
    pop-minimum, length, positional iteration"; the engine reads the
    minimum as [q[0]] and removes it with [q.pop()].  A queue is the list
    of its requests, minimum first; [sq_append] inserts after the
    elements whose key is not greater.  The key is the one the
    specification observes for each container: the arrival time for the
    not-yet-arrived requests, the deadline for the waiting ones.

    Requests are carried by value.  The engine moves a request from one
    container to the next and never holds it in two, so no step of the
    engine depends on two containers sharing an object. *)
Definition SortedQueue := list Request.

Fixpoint sq_append (key : Request → T) (q : SortedQueue) (r : Request)
    : SortedQueue :=
  match q with
  | [] => [r]
  | x :: q' => if tltb (key r) (key x) then r :: x :: q'
               else x :: sq_append key q' r
  end.

(** ** The admission controller and the arrival gate *)

(** [drop_requests]: the dropped ids, the queue and the history after the
    call.  The loop test reads [batch_runtimes[1]] once per iteration, and
    only when the queue is not empty. *)
Fixpoint drop_requests (now : T) (queue : SortedQueue)
    (finished_requests : list Request)
    : result (list Z * SortedQueue * list Request) :=
  match queue with
  | [] => Ok ([], [], finished_requests)
  | req :: rest =>
      d1 ← runtime 1;
      if tltb (deadline req) (tadd now d1) then
        let req' := Request_get_dropped req now in
        '(dropped_reqs, queue', finished') ←
          drop_requests now rest (finished_requests ++ [req']);
        Ok (id req :: dropped_reqs, queue', finished')
      else Ok ([], queue, finished_requests)
  end.

(** [fetch_new_requests]: the new ids, the not-yet-arrived container and
    the queue after the call.  The waiting container is kept in deadline
    order. *)
Fixpoint fetch_new_requests (now : T) (future_requests queue : SortedQueue)
    : list Z * SortedQueue * SortedQueue :=
  match future_requests with
  | [] => ([], [], queue)
  | req :: rest =>
      if tleb (arrival_time req) now then
        let '(new_reqs, future', queue') :=
          fetch_new_requests now rest (sq_append deadline queue req) in
        (id req :: new_reqs, future', queue')
      else ([], future_requests, queue)
  end.

(** ** The scheduling policy *)

(** The scheduler object ([SimpleScheduler] or [DynamicScheduler], whose
    sources are not at hand) is a parameter of the engine: a private
    state of type [PS] and the three entry points the engine calls.  Each
    receives the in-flight batch and the waiting container, which it may
    mutate together with the requests in them, and returns them with its
    result.
    - [schedule(current_batch, queue, current_time)] returns
      [(next_check_time, _)];
    - [preempt(current_batch, queue, current_time, batch_finish_time)]
      returns [do_preemption];
    - [offline_schedule(current_batch, queue, current_time,
      finished_requests)] also receives the history. *)
Variable PS : Type.

Record Scheduler := {
  schedule : PS → SortedQueue → SortedQueue → T
             → PS * SortedQueue * SortedQueue * T;
  preempt : PS → SortedQueue → SortedQueue → T → T
            → PS * SortedQueue * SortedQueue * bool;
  offline_schedule : PS → SortedQueue → SortedQueue → T → list Request
                     → PS * SortedQueue * SortedQueue * list Request;
}.

Variable scheduler : Scheduler.

(** [args.preemption] *)
Variable preemption : bool.

(** ** The state of the event loop *)

(** Calls of the policy's entry points, recorded for the properties that
    speak of them (ghost state: the program keeps no such list). *)
Inductive Call := CallSchedule | CallPreempt.

Record State := {
  queue : SortedQueue;
  future_requests : SortedQueue;
  finished_requests : list Request;
  current_batch : SortedQueue;
  current_time : T;
  batch_finish_time : T;
  next_check_time : option T;   (* unbound until [schedule] has returned *)
  num_iters : nat;
  scheduler_state : PS;
  calls : list Call;
}.

(** The event test at the top of the loop body. *)
Definition classify (s : State) : Event :=
  if (length (current_batch s) =? 0)%nat then NEW_REQS_ARRIVED
  else if teqb (current_time s) (batch_finish_time s) then BATCH_FINISHED
  else CHECK_PREEMPTION.

(** "drop requests" and "fetch new reqs" *)
Definition drop_and_fetch (s : State) : result State :=
  '(drop_reqs, queue1, finished1) ←
    drop_requests (current_time s) (queue s) (finished_requests s);
  let '(new_reqs, future1, queue2) :=
    fetch_new_requests (current_time s) (future_requests s) queue1 in
  Ok {| queue := queue2;
        future_requests := future1;
        finished_requests := finished1;
        current_batch := current_batch s;
        current_time := current_time s;
        batch_finish_time := batch_finish_time s;
        next_check_time := next_check_time s;
        num_iters := num_iters s;
        scheduler_state := scheduler_state s;
        calls := calls s |}.

(** "check if we need to do preemption" *)
Definition check_preemption (event : Event) (s : State) : result State :=
  if bool_decide (event = CHECK_PREEMPTION) && preemption then
    let '(ps, batch, queue1, do_preemption) :=
      preempt scheduler (scheduler_state s) (current_batch s) (queue s)
              (current_time s) (batch_finish_time s) in
    bft ← (if do_preemption then
             duration ← runtime (Z.of_nat (length batch));
             Ok (tadd (current_time s) duration)
           else Ok (batch_finish_time s));
    Ok {| queue := queue1;
          future_requests := future_requests s;
          finished_requests := finished_requests s;
          current_batch := batch;
          current_time := current_time s;
          batch_finish_time := bft;
          next_check_time := next_check_time s;
          num_iters := num_iters s;
          scheduler_state := ps;
          calls := calls s ++ [CallPreempt] |}
  else Ok s.

(** [req.finish_time == current_time]; an unset field is [None], which is
    equal to no float. *)
Definition finish_time_is (req : Request) (now : T) : bool :=
  match finish_time req with
  | Some f => teqb f now
  | None => false
  end.

(** The drain loop of the "batch finished" block: the ids popped and the
    history after it. *)
Fixpoint drain (now : T) (batch : SortedQueue) (finished : list Request)
    : result (list Z * list Request) :=
  match batch with
  | [] => Ok ([], finished)
  | req :: rest =>
      if finish_time_is req now then
        '(req_ids, finished') ← drain now rest (finished ++ [req]);
        Ok (id req :: req_ids, finished')
      else Raise (AssertionError
                    "The finish time of the request is not correct.")
  end.

(** "check if the current batch is finished" *)
Definition batch_finished (event : Event) (s : State) : result State :=
  if bool_decide (event = BATCH_FINISHED) then
    if (0 <? length (current_batch s))%nat then
      '(req_ids, finished1) ←
        drain (current_time s) (current_batch s) (finished_requests s);
      Ok {| queue := queue s;
            future_requests := future_requests s;
            finished_requests := finished1;
            current_batch := [];
            current_time := current_time s;
            batch_finish_time := tinf;
            next_check_time := next_check_time s;
            num_iters := num_iters s;
            scheduler_state := scheduler_state s;
            calls := calls s |}
    else Raise (AssertionError
                  "The current batch should be finished at this time but the current batch is empty.")
  else Ok s.

(** "schedule the next batch" *)
Definition schedule_next (event : Event) (s : State) : result State :=
  if bool_decide (event ≠ CHECK_PREEMPTION) then
    let '(ps, batch, queue1, nct) :=
      schedule scheduler (scheduler_state s) (current_batch s) (queue s)
               (current_time s) in
    '(batch1, bft) ←
      (if (0 <? length batch)%nat then
         duration ← runtime (Z.of_nat (length batch));
         Ok (map (λ req, Request_schedule req (current_time s)
                           (length batch) duration) batch,
             tadd (current_time s) duration)
       else Ok (batch, batch_finish_time s));
    Ok {| queue := queue1;
          future_requests := future_requests s;
          finished_requests := finished_requests s;
          current_batch := batch1;
          current_time := current_time s;
          batch_finish_time := bft;
          next_check_time := Some nct;
          num_iters := num_iters s;
          scheduler_state := ps;
          calls := calls s ++ [CallSchedule] |}
  else Ok s.

(** Python's [min(a, b, c)]: the first of the smallest, found with [<]. *)
Definition min3 (a b c : T) : T :=
  let m := if tltb b a then b else a in
  if tltb c m then c else m.

(** How an iteration ends: [break], or on to the next one. *)
Inductive Step := Break (s : State) | Continue (s : State).

(** "check if the trace is finished" and "check what is the next event" *)
Definition advance (s : State) : result Step :=
  if (length (future_requests s) =? 0)%nat
     && (length (queue s) =? 0)%nat
     && (length (current_batch s) =? 0)%nat
  then Ok (Break s)
  else
    let next_req_arrival_time :=
      match future_requests s with
      | req :: _ => arrival_time req
      | [] => tinf
      end in
    nct ← (match next_check_time s with
           | Some t => Ok t
           | None => Raise (NameError "next_check_time")
           end);
    if teqb (batch_finish_time s) tinf && teqb nct tinf
       && teqb next_req_arrival_time tinf
    then Raise (AssertionError
                  "The 3 times are all inf, which is not possible.")
    else
      Ok (Continue
            {| queue := queue s;
               future_requests := future_requests s;
               finished_requests := finished_requests s;
               current_batch := current_batch s;
               current_time :=
                 min3 nct (batch_finish_time s) next_req_arrival_time;
               batch_finish_time := batch_finish_time s;
               next_check_time := next_check_time s;
               num_iters := S (num_iters s);
               scheduler_state := scheduler_state s;
               calls := calls s |}).

(** One iteration of [while (True)]. *)
Definition loop_body (s : State) : result Step :=
  let event := classify s in
  s1 ← drop_and_fetch s;
  s2 ← check_preemption event s1;
  s3 ← batch_finished event s2;
  s4 ← schedule_next event s3;
  advance s4.

(** The loop, cut after [fuel] iterations. *)
Fixpoint run (fuel : nat) (s : State) : result Step :=
  match fuel with
  | O => Ok (Continue s)
  | S fuel' =>
      st ← loop_body s;
      match st with
      | Break s' => Ok (Break s')
      | Continue s' => run fuel' s'
      end
  end.

End Engine.

Arguments Request T : clear implicits.
Arguments SortedQueue T : clear implicits.
Arguments Scheduler T PS : clear implicits.
Arguments State T PS : clear implicits.
Arguments Step T PS : clear implicits.
Arguments Break {T PS} s.
Arguments Continue {T PS} s.
Arguments schedule {T PS} _ _ _ _ _.
Arguments preempt {T PS} _ _ _ _ _ _.
Arguments offline_schedule {T PS} _ _ _ _ _ _.
Arguments queue {T PS} s.
Arguments future_requests {T PS} s.
Arguments finished_requests {T PS} s.
Arguments current_batch {T PS} s.
Arguments current_time {T PS} s.
Arguments batch_finish_time {T PS} s.
Arguments next_check_time {T PS} s.
Arguments num_iters {T PS} s.
Arguments scheduler_state {T PS} s.
Arguments calls {T PS} s.
Arguments classify {T _ PS} s.
Arguments drop_and_fetch {T _} batch_runtimes {PS} s.
Arguments check_preemption {T _} batch_runtimes {PS} scheduler preemption event s.
Arguments batch_finished {T _ PS} event s.
Arguments schedule_next {T _} batch_runtimes {PS} scheduler event s.
Arguments advance {T _ PS} s.
Arguments loop_body {T _} batch_runtimes {PS} scheduler preemption s.
Arguments run {T _} batch_runtimes {PS} scheduler preemption fuel s.

(** ** The program: arguments, validation, set-up *)

Section Main.
Context {T : Type} `{TimeOps T}.
Variable PS : Type.

Inductive SchedulerName := simple | dynamic.
Inductive VaryTrace := compress | multi_user.

(** The parsed command line ([args]); [args_slo_csv] holds the rows
    [(request_id, slo_factor, arrival_time)] of the file named by
    [--slo-csv], when given. *)
Record Args := {
  args_scheduler : SchedulerName;
  args_preemption : bool;
  args_vary_trace : VaryTrace;
  args_compress_ratio : T;
  args_num_user : Z;
  args_slo_factor : T;
  args_max_batch_size : Z;
  args_offline_num_reqs : Z;
  args_slo_csv : option (list (Z * T * T));
}.

(** What the validation prints before [exit(1)], with the offending
    value. *)
Inductive ConfigError :=
  | compress_ratio_not_positive (got : T)
  | num_user_not_positive (got : Z)
  | slo_factor_not_positive (got : T)
  | max_batch_size_not_positive (got : Z).

Definition error_message (e : ConfigError) : string :=
  match e with
  | compress_ratio_not_positive _ =>
      "Error: compress_ratio must be positive, got "
  | num_user_not_positive _ => "Error: num_user must be positive, got "
  | slo_factor_not_positive _ => "Error: slo_factor must be positive, got "
  | max_batch_size_not_positive _ =>
      "Error: max_batch_size must be positive, got "
  end.

(** "Validate trace variation arguments": the first failing test decides.
    ([args.scheduler] is one of the two names by construction.) *)
Definition validate (args : Args) : option ConfigError :=
  if match args_vary_trace args with compress => true | _ => false end
     && tleb (args_compress_ratio args) tzero
  then Some (compress_ratio_not_positive (args_compress_ratio args))
  else if match args_vary_trace args with multi_user => true | _ => false end
          && (args_num_user args <=? 0)
  then Some (num_user_not_positive (args_num_user args))
  else if tleb (args_slo_factor args) tzero
  then Some (slo_factor_not_positive (args_slo_factor args))
  else if args_max_batch_size args <=? 0
  then Some (max_batch_size_not_positive (args_max_batch_size args))
  else None.

(** "read throughput profile": one entry per row [(bsize,
    mean_runtime_ms)], a later row replacing an earlier one. *)
Definition load_profile (rows : list (Z * T)) : gmap Z T :=
  foldl (λ m row, <[row.1 := row.2]> m) ∅ rows.

Section Requests.
Variable batch_runtimes : gmap Z T.
Variable args : Args.

(** "Use original method": [for i, arrival_time in
    enumerate(arrival_times)], from index [i]. *)
Fixpoint requests_from_trace (i : Z) (arrival_times : list T)
    (future_requests : SortedQueue T) : result (SortedQueue T) :=
  match arrival_times with
  | [] => Ok future_requests
  | arrival :: rest =>
      request ← Request_init batch_runtimes
                  (if args_offline_num_reqs args =? 0 then arrival
                   else tzero)
                  i (args_slo_factor args);
      let future' := sq_append arrival_time future_requests request in
      if (0 <? args_offline_num_reqs args)
         && (args_offline_num_reqs args - 1 <=? i)
      then Ok future'
      else requests_from_trace (i + 1) rest future'
  end.

(** "Read SLO factors and arrival times from CSV file" *)
Fixpoint requests_from_csv (rows : list (Z * T * T))
    (future_requests : SortedQueue T) : result (SortedQueue T) :=
  match rows with
  | [] => Ok future_requests
  | (request_id, slo, arrival) :: rest =>
      request ← Request_init batch_runtimes
                  (if args_offline_num_reqs args =? 0 then arrival
                   else tzero)
                  request_id slo;
      let future' := sq_append arrival_time future_requests request in
      if (0 <? args_offline_num_reqs args)
         && (args_offline_num_reqs args - 1 <=? request_id)
      then Ok future'
      else requests_from_csv rest future'
  end.

(** "Create requests from arrival times" *)
Definition create_requests (arrival_times : list T)
    : result (SortedQueue T) :=
  match args_slo_csv args with
  | Some rows => requests_from_csv rows []
  | None => requests_from_trace 0 arrival_times []
  end.
End Requests.

(** The globals as the loop finds them: [current_time] is the first
    arrival, and reading it from an empty container fails. *)
Definition initial_state (future_requests : SortedQueue T) (ps : PS)
    : result (State T PS) :=
  match future_requests with
  | [] => Raise IndexError
  | req :: _ =>
      Ok {| queue := [];
            future_requests := future_requests;
            finished_requests := [];
            current_batch := [];
            current_time := arrival_time req;
            batch_finish_time := tinf;
            next_check_time := None;
            num_iters := 0;
            scheduler_state := ps;
            calls := [] |}
  end.

(** How a run of the program ends: the validation exits, an exception
    escapes, the history is written, or the loop is still going when the
    fuel is spent. *)
Inductive Outcome :=
  | ExitError (e : ConfigError)
  | Crashed (e : exn)
  | Completed (finished : list (Request T))
  | Running (s : State T PS).

(** The two scheduler classes, as constructors from [max_batch_size] and
    the profile to the entry points and the initial private state. *)
Variable SimpleScheduler DynamicScheduler
  : Z → gmap Z T → Scheduler T PS * PS.

(** [__main__]; [arrival_times] is what the trace generator returns. *)
Definition main (args : Args) (profile_rows : list (Z * T))
    (arrival_times : list T) (fuel : nat) : Outcome :=
  match validate args with
  | Some e => ExitError e
  | None =>
      let batch_runtimes := load_profile profile_rows in
      match create_requests batch_runtimes args arrival_times with
      | Raise e => Crashed e
      | Ok future =>
          let '(scheduler, ps) :=
            match args_scheduler args with
            | simple =>
                SimpleScheduler (args_max_batch_size args) batch_runtimes
            | dynamic =>
                DynamicScheduler (args_max_batch_size args) batch_runtimes
            end in
          match initial_state future ps with
          | Raise e => Crashed e
          | Ok s0 =>
              if 0 <? args_offline_num_reqs args then
                let '(_, future1, queue1) :=
                  fetch_new_requests (current_time s0) future [] in
                let '(_, _, _, finished) :=
                  offline_schedule scheduler ps [] queue1 (current_time s0)
                                   [] in
                Completed finished
              else
                match run batch_runtimes scheduler (args_preemption args)
                          fuel s0 with
                | Raise e => Crashed e
                | Ok (Break s) => Completed (finished_requests s)
                | Ok (Continue s) => Running s
                end
          end
      end
  end.

End Main.

Arguments Args T : clear implicits.
Arguments initial_state {T _ PS} future_requests ps.
Arguments main {T _ PS} SimpleScheduler DynamicScheduler args profile_rows
  arrival_times fuel.
Arguments ConfigError T : clear implicits.
Arguments Outcome T PS : clear implicits.
Arguments ExitError {T PS} e.
Arguments Crashed {T PS} e.
Arguments Completed {T PS} finished.
Arguments Running {T PS} s.

(** ** Properties of requests and states *)

Section Predicates.
Context {T : Type} `{TimeOps T}.

(** The four scheduling fields are all unset or all set. *)
Definition all_or_nothing (r : Request T) : bool :=
  match queue_time r, batch_size r, execution_time r, finish_time r with
  | None, None, None, None => true
  | Some _, Some _, Some _, Some _ => true
  | _, _, _, _ => false
  end.

(** The deadline is the arrival time plus the SLO factor times the
    duration [d1] of a batch of one. *)
Definition deadline_derived (d1 : T) (r : Request T) : Prop :=
  deadline r = tadd (arrival_time r) (tmul (slo_factor r) d1).

(** The scheduling fields as [Request.schedule] writes them at instant
    [now] for a batch of [bsize] requests lasting [d]. *)
Definition scheduled_at (now : T) (bsize : nat) (d : T) (r : Request T)
    : Prop :=
  queue_time r = Some (tsub now (arrival_time r))
  ∧ batch_size r = Some bsize
  ∧ execution_time r = Some d
  ∧ finish_time r = Some (tadd now d).

(** The waiting container in ascending deadline order. *)
Definition deadline_le (a b : Request T) : Prop :=
  tleb (deadline a) (deadline b) = true.
Definition sorted_by_deadline (q : SortedQueue T) : Prop :=
  Sorted deadline_le q.

(** A property of requests holding throughout a state. *)
Definition everywhere {PS} (P : Request T → Prop) (s : State T PS) : Prop :=
  Forall P (future_requests s) ∧ Forall P (queue s)
  ∧ Forall P (current_batch s) ∧ Forall P (finished_requests s).

(** A policy whose entry points keep a property of the requests they are
    handed. *)
Definition policy_keeps {PS} (P : Request T → Prop)
    (scheduler : Scheduler T PS) : Prop :=
  (∀ ps batch q now,
      Forall P batch → Forall P q →
      Forall P (schedule scheduler ps batch q now).1.1.2
      ∧ Forall P (schedule scheduler ps batch q now).1.2)
  ∧ (∀ ps batch q now bft,
      Forall P batch → Forall P q →
      Forall P (preempt scheduler ps batch q now bft).1.1.2
      ∧ Forall P (preempt scheduler ps batch q now bft).1.2).

(** The state a step ends in. *)
Definition state_of {PS} (st : Step T PS) : State T PS :=
  match st with Break s => s | Continue s => s end.

(** The three containers whose emptiness ends the loop. *)
Definition all_empty {PS} (s : State T PS) : Prop :=
  future_requests s = [] ∧ queue s = [] ∧ current_batch s = [].

(** The clock is not ahead of the two wake-up times the state holds. *)
Definition clock_behind {PS} (s : State T PS) : Prop :=
  tleb (current_time s) (batch_finish_time s) = true
  ∧ ∀ t, next_check_time s = Some t → tleb (current_time s) t = true.

(** A policy that never asks to be woken before the instant of the
    call. *)
Definition wakeup_not_in_past {PS} (scheduler : Scheduler T PS) : Prop :=
  ∀ ps batch q now,
    tleb now (schedule scheduler ps batch q now).2 = true.

(** What a request is from construction on, and a request being one of
    those built at set-up, given by their construction-time values. *)
Definition construction (r : Request T) : Z * T * T * T :=
  (id r, arrival_time r, slo_factor r, deadline r).
Definition built_as (S : list (Z * T * T * T)) (r : Request T) : Prop :=
  construction r ∈ S.

(** Every request in flight carries the recorded batch finish time. *)
Definition batch_stamped {PS} (s : State T PS) : Prop :=
  Forall (λ r, finish_time r = Some (batch_finish_time s)) (current_batch s).

(** A policy whose [preempt] either reports no change and leaves the batch
    as it is, or reports a change and has itself stamped every request it
    leaves in flight with the finish time the engine is about to record. *)
Definition preempt_restamps {PS} (batch_runtimes : gmap Z T)
    (scheduler : Scheduler T PS) : Prop :=
  ∀ ps batch q now bft,
    if (preempt scheduler ps batch q now bft).2 then
      ∀ d, batch_runtimes
             !! Z.of_nat (length (preempt scheduler ps batch q now bft).1.1.2)
           = Some d →
           Forall (λ r, finish_time r = Some (tadd now d))
                  (preempt scheduler ps batch q now bft).1.1.2
    else (preempt scheduler ps batch q now bft).1.1.2 = batch.

(** The assertion of the drain loop. *)
Definition finish_time_assertion : exn :=
  AssertionError "The finish time of the request is not correct.".

(** The scheduler with another [preempt] entry point. *)
Definition with_preempt {PS} (scheduler : Scheduler T PS)
    (p : PS → SortedQueue T → SortedQueue T → T → T
         → PS * SortedQueue T * SortedQueue T * bool) : Scheduler T PS :=
  {| schedule := schedule scheduler;
     preempt := p;
     offline_schedule := offline_schedule scheduler |}.

(** Where the wake-up times of a state [s'] later in the iteration started
    in [s] come from: the wake-up asked by the policy is the old one or the
    result of a [schedule] call at the current instant; the batch finish
    time is the old one, [math.inf], or the current instant plus a duration
    of the profile. *)
Definition wakeup_from {PS} (scheduler : Scheduler T PS) (s s' : State T PS)
    : Prop :=
  next_check_time s' = next_check_time s
  ∨ ∃ ps b q,
      next_check_time s'
      = Some (schedule scheduler ps b q (current_time s)).2.

Definition finish_from {PS} (batch_runtimes : gmap Z T) (s s' : State T PS)
    : Prop :=
  batch_finish_time s' = batch_finish_time s
  ∨ batch_finish_time s' = tinf
  ∨ ∃ k d, batch_runtimes !! k = Some d
           ∧ batch_finish_time s' = tadd (current_time s) d.

(** The head of the not-yet-arrived container, if any, has not arrived
    at [now]. *)
Definition head_not_arrived {PS} (now : T) (s' : State T PS) : Prop :=
  match future_requests s' with
  | [] => True
  | r :: _ => tleb (arrival_time r) now = false
  end.

(** A profile without negative durations. *)
Definition durations_nonneg (batch_runtimes : gmap Z T) : Prop :=
  map_Forall (λ _ d, tleb tzero d = true) batch_runtimes.
End Predicates.

(** ** Policies and scenarios used as test inputs *)

Section Policies.
Context {T : Type} `{TimeOps T}.

(** Fill the batch from the head of the queue up to [max] requests and
    ask for the wake-up [wakeup now]; never preempt. *)
Definition fill_schedule (max : nat) (wakeup : T → T)
    : unit → SortedQueue T → SortedQueue T → T
      → unit * SortedQueue T * SortedQueue T * T :=
  λ ps batch q now,
    (ps, batch ++ take (max - length batch) q,
     drop (max - length batch) q, wakeup now).

Definition no_preempt
    : unit → SortedQueue T → SortedQueue T → T → T
      → unit * SortedQueue T * SortedQueue T * bool :=
  λ ps batch q now bft, (ps, batch, q, false).

Definition offline_all
    : unit → SortedQueue T → SortedQueue T → T → list (Request T)
      → unit * SortedQueue T * SortedQueue T * list (Request T) :=
  λ ps batch q now finished, (ps, batch, [], finished ++ q).

Definition fill_policy (max : nat) (wakeup : T → T) : Scheduler T unit :=
  {| schedule := fill_schedule max wakeup;
     preempt := no_preempt;
     offline_schedule := offline_all |}.

(** Wait until [k] requests are waiting, then batch them. *)
Definition wait_for_policy (k : nat) : Scheduler T unit :=
  {| schedule := λ ps batch q now,
       if (k <=? length q)%nat then (ps, batch ++ take k q, drop k q, tinf)
       else (ps, batch, q, tinf);
     preempt := no_preempt;
     offline_schedule := offline_all |}.

(** Never batch anything; wake up at [wakeup now]. *)
Definition idle_policy (wakeup : T → T) : Scheduler T unit :=
  {| schedule := λ ps batch q now, (ps, batch, q, wakeup now);
     preempt := no_preempt;
     offline_schedule := offline_all |}.

(** Fill the batch like [fill_policy]; on a preemption check, pull the
    last request of a batch of two or more back into the queue with
    [Request.preempt] and report the change. *)
Definition shrink_preempt
    : unit → SortedQueue T → SortedQueue T → T → T
      → unit * SortedQueue T * SortedQueue T * bool :=
  λ ps batch q now bft,
    match reverse batch with
    | last :: (_ :: _) as front =>
        (ps, reverse front, sq_append deadline q (Request_preempt last),
         true)
    | _ => (ps, batch, q, false)
    end.

Definition shrink_policy (max : nat) : Scheduler T unit :=
  {| schedule := fill_schedule max (λ _, tinf);
     preempt := shrink_preempt;
     offline_schedule := offline_all |}.
End Policies.

(** The profile of the specification's scenarios: a batch of one takes 10,
    a batch of two takes 15. *)
Definition profile_AB : gmap Z float :=
  load_profile [(1, 10%float); (2, 15%float)].

(** A fresh request as [Request(arrival, i, slo)] builds it under a profile
    whose batch of one takes [d1]. *)
Definition fresh {T} `{TimeOps T} (d1 arrival : T) (i : Z) (slo : T)
    : Request T :=
  {| arrival_time := arrival; id := i; queue_time := None;
     dropped_time := None; execution_time := None; finish_time := None;
     batch_size := None; slo_factor := slo;
     deadline := tadd arrival (tmul slo d1) |}.

(** The state the loop starts from. *)
Definition start {T} `{TimeOps T} (future : SortedQueue T) (now : T)
    : State T unit :=
  {| queue := []; future_requests := future; finished_requests := [];
     current_batch := []; current_time := now; batch_finish_time := tinf;
     next_check_time := None; num_iters := 0; scheduler_state := tt;
     calls := [] |}.

(** The state a run has reached after [n] iterations, if it got there. *)
Definition after {T} `{TimeOps T} {PS} (batch_runtimes : gmap Z T)
    (scheduler : Scheduler T PS) (preemption : bool) (n : nat)
    (s : State T PS) : option (State T PS) :=
  match run batch_runtimes scheduler preemption n s with
  | Ok (Continue s') => Some s'
  | _ => None
  end.

(** Scenario B of the specification: two requests arriving at 0 and 1
    under [profile_AB], SLO factor 5, and a policy that batches them
    together once both wait. *)
Definition scenario_B : State float unit :=
  start [fresh 10%float 0%float 0 5%float; fresh 10%float 1%float 1 5%float]
        0%float.

(** A state in the middle of a batch: request 0 was scheduled alone at 0
    and runs until 10, request 1 arrives at 3, and the clock shows 3. *)
Definition mid_batch : State float unit :=
  {| queue := [];
     future_requests := [fresh 10%float 3%float 1 5%float];
     finished_requests := [];
     current_batch :=
       [Request_schedule (fresh 10%float 0%float 0 5%float) 0%float 1
                         10%float];
     current_time := 3%float;
     batch_finish_time := 10%float;
     next_check_time := Some infinity;
     num_iters := 1;
     scheduler_state := tt;
     calls := [CallSchedule] |}.

(** Scenario B at instant 1, after admission: both requests wait and
    nothing is in flight. *)
Definition both_waiting : State float unit :=
  {| queue := [fresh 10%float 0%float 0 5%float;
               fresh 10%float 1%float 1 5%float];
     future_requests := [];
     finished_requests := [];
     current_batch := [];
     current_time := 1%float;
     batch_finish_time := infinity;
     next_check_time := Some infinity;
     num_iters := 1;
     scheduler_state := tt;
     calls := [CallSchedule] |}.

(** A request that is late on arrival: it arrives at 0 with SLO factor
    0.5, so its deadline 5 is less than 0 + duration(1) = 10. *)
Definition scenario_late : State float unit :=
  start [fresh 10%float 0%float 0 0.5%float] 0%float.

(** Two requests arriving at 5 and 100, and the state the loop starts
    from for them. *)
Definition scenario_far_apart : State float unit :=
  start [fresh 10%float 5%float 0 5%float; fresh 10%float 100%float 1 5%float]
        5%float.

(** The same two arrivals over exact times. *)
Definition scenario_far_apart_exact : State xtime unit :=
  start [fresh (Fin 10) (Fin 5) 0 (Fin 5); fresh (Fin 10) (Fin 100) 1 (Fin 5)]
        (Fin 5).

(** [profile_AB] over exact times. *)
Definition profile_AB_exact : gmap Z xtime :=
  load_profile [(1, Fin 10); (2, Fin 15)].

(** Two requests arriving at 0 and a third at 3, for a run with
    preemption enabled. *)
Definition scenario_preempt : State float unit :=
  start [fresh 10%float 0%float 0 5%float; fresh 10%float 0%float 1 5%float;
         fresh 10%float 3%float 2 5%float]
        0%float.

(** A scheduler class for test runs: batches of up to [max_batch_size]
    requests from the head of the queue, no wake-up, no preemption. *)
Definition FillScheduler (max_batch_size : Z) (batch_runtimes : gmap Z float)
    : Scheduler float unit * unit :=
  (fill_policy (Z.to_nat max_batch_size) (λ _, infinity), tt).

(** The command line [--scheduler simple --compress-ratio 0.5
    --max-batch-size 2], the other options at their defaults. *)
Definition args_batch_2 : Args float :=
  {| args_scheduler := simple;
     args_preemption := false;
     args_vary_trace := compress;
     args_compress_ratio := 0.5%float;
     args_num_user := 10;
     args_slo_factor := 5%float;
     args_max_batch_size := 2;
     args_offline_num_reqs := 0;
     args_slo_csv := None |}.

(** The same with [--slo-factor 0]. *)
Definition args_slo_0 : Args float :=
  {| args_scheduler := simple;
     args_preemption := false;
     args_vary_trace := compress;
     args_compress_ratio := 0.5%float;
     args_num_user := 10;
     args_slo_factor := 0%float;
     args_max_batch_size := 2;
     args_offline_num_reqs := 0;
     args_slo_csv := None |}.

(** ** Further predicates on containers, states and policies *)

Section MorePredicates.
Context {T : Type} `{TimeOps T}.

(** The not-yet-arrived container in ascending order of arrival. *)
Definition arrival_le (a b : Request T) : Prop :=
  tleb (arrival_time a) (arrival_time b) = true.
Definition sorted_by_arrival (q : SortedQueue T) : Prop :=
  Sorted arrival_le q.

(** The other two assertions of the loop body. *)
Definition empty_batch_assertion : exn :=
  AssertionError
    "The current batch should be finished at this time but the current batch is empty.".
Definition deadlock_assertion : exn :=
  AssertionError "The 3 times are all inf, which is not possible.".

(** The local [next_check_time] is bound, or the next event test will send
    the loop through the schedule block, which binds it. *)
Definition wakeup_bound {PS} (s : State T PS) : Prop :=
  current_batch s = [] ∨ is_Some (next_check_time s).

(** The ids of all requests of a state, container by container. *)
Definition all_ids {PS} (s : State T PS) : list Z :=
  map id (future_requests s ++ queue s ++ current_batch s
          ++ finished_requests s).

(** A policy that only moves requests between the two containers it is
    handed: the ids in them are the same before and after a call. *)
Definition policy_conserves {PS} (scheduler : Scheduler T PS) : Prop :=
  (∀ ps batch q now,
      map id ((schedule scheduler ps batch q now).1.1.2
              ++ (schedule scheduler ps batch q now).1.2)
      ≡ₚ map id (batch ++ q))
  ∧ (∀ ps batch q now bft,
        map id ((preempt scheduler ps batch q now bft).1.1.2
                ++ (preempt scheduler ps batch q now bft).1.2)
        ≡ₚ map id (batch ++ q)).

(** The state [s] after [k] more iterations that changed nothing else. *)
Definition iterated {PS} (s : State T PS) (k : nat) : State T PS :=
  {| queue := queue s;
     future_requests := future_requests s;
     finished_requests := finished_requests s;
     current_batch := current_batch s;
     current_time := current_time s;
     batch_finish_time := batch_finish_time s;
     next_check_time := next_check_time s;
     num_iters := k + num_iters s;
     scheduler_state := scheduler_state s;
     calls := calls s |}.

(** The policy calls an iteration makes, by event. *)
Definition calls_of (event : Event) (preemption : bool) : list Call :=
  match event with
  | CHECK_PREEMPTION => if preemption then [CallPreempt] else []
  | _ => [CallSchedule]
  end.
End MorePredicates.

(** A state stuck on a stale wake-up: a batch scheduled at 0 runs until
    10, the policy asked to be woken at 3, and the clock shows 3. *)
Definition stale_wakeup : State float unit :=
  {| queue := [];
     future_requests := [];
     finished_requests := [];
     current_batch :=
       [Request_schedule (fresh 10%float 0%float 0 5%float) 0%float 1
                         10%float];
     current_time := 3%float;
     batch_finish_time := 10%float;
     next_check_time := Some 3%float;
     num_iters := 1;
     scheduler_state := tt;
     calls := [CallSchedule] |}.

(** The requests the set-up loop creates from a trace: request [j] for
    the [j]-th arrival time kept, which is the arrival time itself, or 0
    when [--offline-num-reqs] is not 0; with a positive [--offline-num-reqs]
    only that many arrival times are kept. *)
Definition created_from_trace {T} `{TimeOps T} (d1 : T) (args : Args T)
    (arrival_times : list T) : list (Request T) :=
  imap (λ j a, fresh d1
                 (if args_offline_num_reqs args =? 0 then a else tzero)
                 (Z.of_nat j) (args_slo_factor args))
       (if 0 <? args_offline_num_reqs args
        then take (Z.to_nat (args_offline_num_reqs args)) arrival_times
        else arrival_times).

(** A policy that fills an empty batch like [fill_policy] but, handed a
    batch that is not empty, throws it away. *)
Definition fill_if_empty_policy {T} `{TimeOps T} (max : nat) (wakeup : T → T)
    : Scheduler T unit :=
  {| schedule := λ ps batch q now,
       match batch with
       | [] => fill_schedule max wakeup ps batch q now
       | _ :: _ => (ps, [], q, now)
       end;
     preempt := no_preempt;
     offline_schedule := offline_all |}.

(** The command line [--scheduler simple --compress-ratio 0.5
    --max-batch-size 2 --offline-num-reqs 2]. *)
Definition args_offline_2 : Args float :=
  {| args_scheduler := simple;
     args_preemption := false;
     args_vary_trace := compress;
     args_compress_ratio := 0.5%float;
     args_num_user := 10;
     args_slo_factor := 5%float;
     args_max_batch_size := 2;
     args_offline_num_reqs := 2;
     args_slo_csv := None |}.

(** The command line [--scheduler simple --compress-ratio 0.5
    --max-batch-size 2 --slo-csv FILE], for a file with two rows: request 4
    with SLO factor -1 arriving at 2, request 9 with SLO factor 3 arriving
    at 1. *)
Definition args_csv : Args float :=
  {| args_scheduler := simple;
     args_preemption := false;
     args_vary_trace := compress;
     args_compress_ratio := 0.5%float;
     args_num_user := 10;
     args_slo_factor := 5%float;
     args_max_batch_size := 2;
     args_offline_num_reqs := 0;
     args_slo_csv := Some [(4, (-1)%float, 2%float); (9, 3%float, 1%float)] |}.

(** * Properties *)

(** ** Exact times are totally ordered *)

#[export] Instance xtime_order : TimeOrder xtime.
Proof.
  split.
  - intros [a|]; simpl; [apply Z.leb_refl | reflexivity].
  - intros [a|] [b|] [c|]; simpl; try reflexivity; try discriminate.
    rewrite !Z.leb_le. lia.
  - intros [a|] [b|]; simpl; try reflexivity; try discriminate.
    rewrite Z.leb_gt, Z.leb_le. lia.
  - reflexivity.
  - intros [a|]; reflexivity.
  - intros [a|] [d|]; simpl; try reflexivity.
    rewrite !Z.leb_le. lia.
  - intros [a|] [b|]; simpl; try reflexivity. apply Z.eqb_sym.
Qed.

(** ** The result monad *)

Lemma bind_Ok {A B} (c : result A) (f : A → result B) (b : B) :
  c ≫= f = Ok b → ∃ a, c = Ok a ∧ f a = Ok b.
Proof. destruct c as [a|e]; simpl; [eauto | discriminate]. Qed.

Ltac inv_bind H :=
  let a := fresh "a" in
  let Ha := fresh "Ha" in
  apply bind_Ok in H; destruct H as (a & Ha & H).

Section AdmissionControl.
Context {T : Type} `{TimeOps T}.
Variable batch_runtimes : gmap Z T.

(** What [drop_requests] does to any queue: it pops the longest prefix of
    requests failing the deadline test. *)
Lemma drop_requests_split now d1 (q : SortedQueue T) fin :
  batch_runtimes !! 1 = Some d1 →
  ∃ dropped kept,
    q = dropped ++ kept
    ∧ drop_requests batch_runtimes now q fin
      = Ok (map id dropped, kept,
            fin ++ map (λ r, Request_get_dropped r now) dropped)
    ∧ Forall (λ r, tltb (deadline r) (tadd now d1) = true) dropped
    ∧ match kept with
      | [] => True
      | r :: _ => tltb (deadline r) (tadd now d1) = false
      end.
Proof.
  intros Hd1. revert fin.
  induction q as [|req rest IH]; intros fin.
  - exists [], []. simpl. rewrite app_nil_r. auto.
  - simpl. unfold runtime. rewrite Hd1. simpl.
    destruct (tltb (deadline req) (tadd now d1)) eqn:Hlt.
    + destruct (IH (fin ++ [Request_get_dropped req now]))
        as (dropped & kept & -> & Hrun & Hall & Hhead).
      exists (req :: dropped), kept. rewrite Hrun. simpl.
      rewrite <- app_assoc. simpl. auto.
    + exists [], (req :: rest). simpl. rewrite app_nil_r. auto.
Qed.

(** In an ascending queue nothing behind a request that passes the
    deadline test fails it. *)
Lemma sorted_tail_passes `{!TimeOrder T} thr (r : Request T) rest :
  sorted_by_deadline (r :: rest) →
  tltb (deadline r) thr = false →
  Forall (λ x, tltb (deadline x) thr = false) (r :: rest).
Proof.
  intros Hs Hr.
  apply Sorted_StronglySorted in Hs.
  2:{ intros a b c Hab Hbc. unfold deadline_le in *.
      eapply tleb_trans; eauto. }
  apply StronglySorted_inv in Hs as [_ Hall].
  constructor; [exact Hr|].
  eapply Forall_impl; [exact Hall|].
  intros x Hx. unfold deadline_le in Hx.
  rewrite tltb_tleb in *. apply negb_false_iff in Hr.
  apply negb_false_iff. eapply tleb_trans; eauto.
Qed.

End AdmissionControl.


(** ** The event loop *)

Section EventLoop.
Context {T : Type} `{TimeOps T}.
Variable batch_runtimes : gmap Z T.
Context {PS : Type}.
Variable scheduler : Scheduler T PS.

(** C3. At the top of every iteration the event is [NEW_REQS_ARRIVED]
    exactly when the in-flight batch is empty, [BATCH_FINISHED] exactly when
    the batch is not empty and the current time equals the recorded batch
    finish time, and [CHECK_PREEMPTION] exactly in the remaining case.  The
    three cases exclude each other and cover every state; the event is not
    part of the state but computed by the loop body from the batch, the
    clock and the batch finish time of the state it starts in. *)
Theorem classify_cases (preemption : bool) (s : State T PS) :
  (classify s = NEW_REQS_ARRIVED ↔ current_batch s = [])
  ∧ (classify s = BATCH_FINISHED
     ↔ current_batch s ≠ []
       ∧ teqb (current_time s) (batch_finish_time s) = true)
  ∧ (classify s = CHECK_PREEMPTION
     ↔ current_batch s ≠ []
       ∧ teqb (current_time s) (batch_finish_time s) = false)
  ∧ (∀ s' : State T PS,
        current_batch s' = current_batch s →
        current_time s' = current_time s →
        batch_finish_time s' = batch_finish_time s →
        classify s' = classify s)
  ∧ loop_body batch_runtimes scheduler preemption s
    = (s1 ← drop_and_fetch batch_runtimes s;
       s2 ← check_preemption batch_runtimes scheduler preemption
              (classify s) s1;
       s3 ← batch_finished (classify s) s2;
       s4 ← schedule_next batch_runtimes scheduler (classify s) s3;
       advance s4).
Proof.
  unfold classify.
  repeat split; try (intros s' -> -> ->; reflexivity);
    destruct (current_batch s) as [|r b]; simpl;
    destruct (teqb (current_time s) (batch_finish_time s));
    try tauto; try discriminate; try congruence;
    intros; repeat split; try discriminate; try congruence;
    try (destruct H0; congruence).
Qed.

(** The admission step touches the waiting container, the not-yet-arrived
    container and the history only. *)
Lemma drop_and_fetch_frame (s s1 : State T PS) :
  drop_and_fetch batch_runtimes s = Ok s1 →
  current_batch s1 = current_batch s
  ∧ current_time s1 = current_time s
  ∧ batch_finish_time s1 = batch_finish_time s
  ∧ next_check_time s1 = next_check_time s
  ∧ num_iters s1 = num_iters s
  ∧ scheduler_state s1 = scheduler_state s
  ∧ calls s1 = calls s.
Proof.
  unfold drop_and_fetch. intros Hs.
  destruct (drop_requests batch_runtimes (current_time s) (queue s)
              (finished_requests s)) as [[[ids q1] f1]|e]; [|discriminate].
  simpl in Hs.
  destruct (fetch_new_requests (current_time s) (future_requests s) q1)
    as [[ids' fut] q2].
  injection Hs as <-. simpl. tauto.
Qed.

(** The end of an iteration changes the clock and the iteration count
    only. *)
Lemma advance_frame (s : State T PS) st :
  advance s = Ok st →
  queue (state_of st) = queue s
  ∧ future_requests (state_of st) = future_requests s
  ∧ finished_requests (state_of st) = finished_requests s
  ∧ current_batch (state_of st) = current_batch s
  ∧ batch_finish_time (state_of st) = batch_finish_time s
  ∧ next_check_time (state_of st) = next_check_time s
  ∧ scheduler_state (state_of st) = scheduler_state s
  ∧ calls (state_of st) = calls s.
Proof.
  unfold advance. intros Hs.
  destruct (_ && _ && _) in Hs.
  - injection Hs as <-. simpl. tauto.
  - destruct (next_check_time s) as [t|] eqn:Hn; [|discriminate].
    simpl in Hs. destruct (_ && _ && _) in Hs; [discriminate|].
    injection Hs as <-. simpl. tauto.
Qed.

(** With preemption off, an iteration that finds a batch in progress is the
    admission step followed by the advance of the clock. *)
Lemma loop_body_check_disabled (s : State T PS) :
  classify s = CHECK_PREEMPTION →
  loop_body batch_runtimes scheduler false s
  = (s1 ← drop_and_fetch batch_runtimes s; advance s1).
Proof.
  intros Hc. unfold loop_body. rewrite Hc.
  destruct (drop_and_fetch batch_runtimes s) as [s1|e]; reflexivity.
Qed.

(** C7. With preemption disabled, an iteration classified
    [CHECK_PREEMPTION] never invokes the policy's [preempt] entry point: its
    outcome is the same whatever that entry point is, it records no call of
    the policy and leaves the policy's state alone; and it leaves
    [batch_finish_time] (and the in-flight batch) unchanged. *)
Theorem disabled_preemption_never_preempts (s : State T PS) :
  classify s = CHECK_PREEMPTION →
  (∀ p, loop_body batch_runtimes (with_preempt scheduler p) false s
        = loop_body batch_runtimes scheduler false s)
  ∧ ∀ st, loop_body batch_runtimes scheduler false s = Ok st →
      calls (state_of st) = calls s
      ∧ scheduler_state (state_of st) = scheduler_state s
      ∧ batch_finish_time (state_of st) = batch_finish_time s
      ∧ current_batch (state_of st) = current_batch s.
Proof.
  intros Hc. split.
  - intros p. unfold loop_body. rewrite Hc.
    destruct (drop_and_fetch batch_runtimes s) as [s1|e]; reflexivity.
  - intros st Hst. rewrite (loop_body_check_disabled s Hc) in Hst.
    inv_bind Hst.
    apply drop_and_fetch_frame in Ha.
    apply advance_frame in Hst.
    destruct Ha as (Hb & _ & Hf & _ & _ & Hp & Hl).
    destruct Hst as (_ & _ & _ & Hb' & Hf' & _ & Hp' & Hl').
    repeat split; congruence.
Qed.

(** C4. When the engine commits a batch at instant [T] (the policy's
    [schedule] call leaves [B > 0] requests in flight and the profile gives
    [D = duration(B)]), every request of the batch gets
    [queue_time = T - arrival_time], [batch_size = B], [execution_time = D]
    and [finish_time = T + D], and [batch_finish_time] becomes [T + D].  In
    scenario B (arrivals at 0 and 1, batched together at 1, duration(2) =
    15) both requests get finish time 16 and the first gets queue time 1. *)
Theorem schedule_commits_batch :
  (∀ (event : Event) (s : State T PS) ps batch q nct D,
      event ≠ CHECK_PREEMPTION →
      schedule scheduler (scheduler_state s) (current_batch s) (queue s)
               (current_time s) = (ps, batch, q, nct) →
      batch ≠ [] →
      batch_runtimes !! Z.of_nat (length batch) = Some D →
      ∃ s', schedule_next batch_runtimes scheduler event s = Ok s'
            ∧ current_time s' = current_time s
            ∧ batch_finish_time s' = tadd (current_time s) D
            ∧ current_batch s'
              = map (λ r, Request_schedule r (current_time s) (length batch) D)
                    batch
            ∧ Forall (scheduled_at (current_time s) (length batch) D)
                     (current_batch s'))
  ∧ (current_time <$> after profile_AB (wait_for_policy 2) false 1 scenario_B
     = Some 1%float
     ∧ (map id ∘ queue <$>
          after profile_AB (wait_for_policy 2) false 1 scenario_B)
       = Some [0]
     ∧ (map id ∘ current_batch <$>
          after profile_AB (wait_for_policy 2) false 2 scenario_B)
       = Some [0; 1]
     ∧ (map finish_time ∘ current_batch <$>
          after profile_AB (wait_for_policy 2) false 2 scenario_B)
       = Some [Some 16%float; Some 16%float]
     ∧ (map queue_time ∘ current_batch <$>
          after profile_AB (wait_for_policy 2) false 2 scenario_B)
       = Some [Some 1%float; Some 0%float]
     ∧ (map batch_size ∘ current_batch <$>
          after profile_AB (wait_for_policy 2) false 2 scenario_B)
       = Some [Some 2%nat; Some 2%nat]
     ∧ (batch_finish_time <$>
          after profile_AB (wait_for_policy 2) false 2 scenario_B)
       = Some 16%float).
Proof.
  split.
  - intros event s ps batch q nct D Hev Hsch Hne HD.
    unfold schedule_next.
    rewrite bool_decide_eq_true_2 by exact Hev.
    rewrite Hsch.
    destruct batch as [|r b]; [congruence|].
    unfold runtime. rewrite HD. simpl.
    eexists. split; [reflexivity|]. simpl.
    repeat split; auto.
    constructor; [repeat split|].
    apply Forall_map, Forall_forall. intros x _. repeat split.
  - repeat split; vm_compute; reflexivity.
Qed.

End EventLoop.

Lemma disabled_preemption_never_preempts_witness :
  classify mid_batch = CHECK_PREEMPTION
  ∧ (∀ p, loop_body profile_AB
            (with_preempt (fill_policy 2 (λ _, infinity)) p) false mid_batch
          = loop_body profile_AB (fill_policy 2 (λ _, infinity)) false
                      mid_batch)
  ∧ ∀ st, loop_body profile_AB (fill_policy 2 (λ _, infinity)) false mid_batch
          = Ok st →
      calls (state_of st) = calls mid_batch
      ∧ scheduler_state (state_of st) = scheduler_state mid_batch
      ∧ batch_finish_time (state_of st) = batch_finish_time mid_batch
      ∧ current_batch (state_of st) = current_batch mid_batch.
Proof.
  split; [reflexivity|].
  exact (disabled_preemption_never_preempts profile_AB
           (fill_policy 2 (λ _, infinity)) mid_batch eq_refl).
Defined.

Lemma schedule_commits_batch_witness :
  NEW_REQS_ARRIVED ≠ CHECK_PREEMPTION
  ∧ profile_AB !! 2 = Some 15%float
  ∧ ∃ s', schedule_next profile_AB (wait_for_policy 2) NEW_REQS_ARRIVED
                        both_waiting = Ok s'
          ∧ current_time s' = 1%float
          ∧ batch_finish_time s' = tadd 1%float 15%float
          ∧ current_batch s'
            = map (λ r, Request_schedule r 1%float 2 15%float)
                  (queue both_waiting)
          ∧ Forall (scheduled_at 1%float 2 15%float) (current_batch s').
Proof.
  split; [discriminate|]. split; [reflexivity|].
  apply (proj1 (schedule_commits_batch profile_AB (wait_for_policy 2))
           NEW_REQS_ARRIVED both_waiting tt (queue both_waiting) [] infinity
           15%float);
    [discriminate | reflexivity | discriminate | reflexivity].
Defined.

(** ** Properties of requests kept by the engine *)

Section Keeps.
Context {T : Type} `{TimeOps T}.
Variable batch_runtimes : gmap Z T.
Context {PS : Type}.
Variable scheduler : Scheduler T PS.

(** A property of requests that [Request.get_dropped] and
    [Request.schedule] keep. *)
Variable P : Request T → Prop.
Hypothesis P_get_dropped : ∀ r now, P r → P (Request_get_dropped r now).
Hypothesis P_schedule : ∀ r now b d, P r → P (Request_schedule r now b d).

Lemma sq_append_keeps key (q : SortedQueue T) r :
  Forall P q → P r → Forall P (sq_append key q r).
Proof.
  intros Hq Hr. induction Hq as [|x q Hx Hq IH]; simpl.
  - constructor; [exact Hr | constructor].
  - destruct (tltb (key r) (key x)); repeat constructor; assumption.
Qed.

Lemma drop_requests_keeps now (q : SortedQueue T) fin ids q' fin' :
  Forall P q → Forall P fin →
  drop_requests batch_runtimes now q fin = Ok (ids, q', fin') →
  Forall P q' ∧ Forall P fin'.
Proof.
  intros Hq. revert fin ids.
  induction Hq as [|req rest Hreq Hrest IH]; intros fin ids Hfin Hrun.
  - injection Hrun as <- <- <-. split; [constructor | exact Hfin].
  - simpl in Hrun. inv_bind Hrun.
    destruct (tltb (deadline req) (tadd now a)).
    + inv_bind Hrun. destruct a0 as [[ids0 q0] fin0].
      injection Hrun as <- <- <-.
      eapply IH; [|exact Ha0].
      apply Forall_app. split; [exact Hfin|].
      constructor; [apply P_get_dropped; exact Hreq | constructor].
    + injection Hrun as <- <- <-.
      split; [constructor; assumption | exact Hfin].
Qed.

Lemma fetch_new_requests_keeps now (fut q : SortedQueue T) :
  Forall P fut → Forall P q →
  Forall P (fetch_new_requests now fut q).1.2
  ∧ Forall P (fetch_new_requests now fut q).2.
Proof.
  intros Hfut. revert q.
  induction Hfut as [|req rest Hreq Hrest IH]; intros q Hq; simpl.
  - split; [constructor | exact Hq].
  - destruct (tleb (arrival_time req) now).
    + specialize (IH (sq_append deadline q req)
                     (sq_append_keeps deadline q req Hq Hreq)).
      destruct (fetch_new_requests now rest (sq_append deadline q req))
        as [[ids fut'] q'].
      exact IH.
    + split; [constructor; assumption | exact Hq].
Qed.

(** The drain loop moves the batch to the end of the history, as it is. *)
Lemma drain_appends now (batch : SortedQueue T) fin ids fin' :
  drain now batch fin = Ok (ids, fin') →
  fin' = fin ++ batch ∧ ids = map id batch
  ∧ Forall (λ r, finish_time_is r now = true) batch.
Proof.
  revert fin ids.
  induction batch as [|req rest IH]; intros fin ids Hrun; simpl in Hrun.
  - injection Hrun as <- <-. rewrite app_nil_r. auto.
  - destruct (finish_time_is req now) eqn:Hf; [|discriminate].
    inv_bind Hrun. destruct a as [ids0 fin0].
    injection Hrun as <- <-.
    apply IH in Ha as (-> & -> & Hall).
    rewrite <- app_assoc. auto.
Qed.

Hypothesis P_policy : policy_keeps P scheduler.

Lemma drop_and_fetch_keeps (s s1 : State T PS) :
  everywhere P s → drop_and_fetch batch_runtimes s = Ok s1 → everywhere P s1.
Proof.
  intros (Hfut & Hq & Hb & Hfin) Hs. unfold drop_and_fetch in Hs.
  inv_bind Hs. destruct a as [[ids q1] fin1].
  destruct (drop_requests_keeps _ _ _ _ _ _ Hq Hfin Ha) as [Hq1 Hfin1].
  pose proof (fetch_new_requests_keeps (current_time s) _ _ Hfut Hq1) as Hf.
  destruct (fetch_new_requests (current_time s) (future_requests s) q1)
    as [[ids' fut'] q2].
  injection Hs as <-. destruct Hf. repeat split; assumption.
Qed.

Lemma check_preemption_keeps preemption event (s s1 : State T PS) :
  everywhere P s →
  check_preemption batch_runtimes scheduler preemption event s = Ok s1 →
  everywhere P s1.
Proof.
  intros (Hfut & Hq & Hb & Hfin) Hs. unfold check_preemption in Hs.
  destruct (bool_decide (event = CHECK_PREEMPTION) && preemption).
  - pose proof (proj2 P_policy (scheduler_state s) _ _ (current_time s)
                  (batch_finish_time s) Hb Hq) as Hp.
    destruct (preempt scheduler (scheduler_state s) (current_batch s)
                (queue s) (current_time s) (batch_finish_time s))
      as [[[ps batch] q1] did].
    inv_bind Hs. injection Hs as <-. destruct Hp.
    repeat split; assumption.
  - injection Hs as <-. repeat split; assumption.
Qed.

Lemma batch_finished_keeps event (s s1 : State T PS) :
  everywhere P s → batch_finished event s = Ok s1 → everywhere P s1.
Proof.
  intros (Hfut & Hq & Hb & Hfin) Hs. unfold batch_finished in Hs.
  destruct (bool_decide (event = BATCH_FINISHED)).
  - destruct (0 <? length (current_batch s))%nat; [|discriminate].
    inv_bind Hs. destruct a as [ids fin1].
    apply drain_appends in Ha as (-> & _ & _).
    injection Hs as <-. repeat split; try assumption; [constructor|].
    apply Forall_app. split; assumption.
  - injection Hs as <-. repeat split; assumption.
Qed.

Lemma schedule_next_keeps event (s s1 : State T PS) :
  everywhere P s →
  schedule_next batch_runtimes scheduler event s = Ok s1 →
  everywhere P s1.
Proof.
  intros (Hfut & Hq & Hb & Hfin) Hs. unfold schedule_next in Hs.
  destruct (bool_decide (event ≠ CHECK_PREEMPTION)).
  - pose proof (proj1 P_policy (scheduler_state s) _ _ (current_time s)
                  Hb Hq) as Hp.
    destruct (schedule scheduler (scheduler_state s) (current_batch s)
                (queue s) (current_time s)) as [[[ps batch] q1] nct].
    destruct Hp as [Hb1 Hq1]. simpl in Hb1, Hq1.
    inv_bind Hs. destruct a as [batch1 bft]. injection Hs as <-.
    repeat split; try assumption. simpl.
    destruct (0 <? length batch)%nat.
    + inv_bind Ha. injection Ha as <- <-.
      apply Forall_map. eapply Forall_impl; [exact Hb1|].
      intros r Hr. apply P_schedule. exact Hr.
    + injection Ha as <- <-. exact Hb1.
  - injection Hs as <-. repeat split; assumption.
Qed.

Lemma loop_body_keeps preemption (s : State T PS) st :
  everywhere P s →
  loop_body batch_runtimes scheduler preemption s = Ok st →
  everywhere P (state_of st).
Proof.
  intros Hs Hst. unfold loop_body in Hst.
  inv_bind Hst. apply drop_and_fetch_keeps in Ha; [|exact Hs].
  inv_bind Hst. apply check_preemption_keeps in Ha0; [|exact Ha].
  inv_bind Hst. apply batch_finished_keeps in Ha1; [|exact Ha0].
  inv_bind Hst. apply schedule_next_keeps in Ha2; [|exact Ha1].
  destruct (advance_frame _ _ Hst) as (E1 & E2 & E3 & E4 & _).
  destruct Ha2 as (? & ? & ? & ?).
  unfold everywhere. rewrite E1, E2, E3, E4. auto.
Qed.

Lemma run_keeps preemption n (s : State T PS) st :
  everywhere P s →
  run batch_runtimes scheduler preemption n s = Ok st →
  everywhere P (state_of st).
Proof.
  revert s. induction n as [|n IH]; intros s Hs Hst; simpl in Hst.
  - injection Hst as <-. exact Hs.
  - inv_bind Hst. apply loop_body_keeps in Ha; [|exact Hs].
    destruct a as [s'|s'].
    + injection Hst as <-. exact Ha.
    + eapply IH; [exact Ha | exact Hst].
Qed.

End Keeps.

(** ** The requests built at set-up *)

Section SetUp.
Context {T : Type} `{TimeOps T}.
Variable batch_runtimes : gmap Z T.
Variable P : Request T → Prop.
Hypothesis P_init :
  ∀ a i slo r, Request_init batch_runtimes a i slo = Ok r → P r.

Lemma requests_from_trace_keeps args i arrival_times fut fut' :
  Forall P fut →
  requests_from_trace batch_runtimes args i arrival_times fut = Ok fut' →
  Forall P fut'.
Proof.
  revert i fut. induction arrival_times as [|a rest IH]; intros i fut Hfut Hr;
    simpl in Hr.
  - injection Hr as <-. exact Hfut.
  - inv_bind Hr. apply P_init in Ha.
    pose proof (sq_append_keeps P arrival_time fut a0 Hfut Ha) as Hf.
    destruct (_ && _) in Hr.
    + injection Hr as <-. exact Hf.
    + eapply IH; [exact Hf | exact Hr].
Qed.

Lemma requests_from_csv_keeps args rows fut fut' :
  Forall P fut →
  requests_from_csv batch_runtimes args rows fut = Ok fut' →
  Forall P fut'.
Proof.
  revert fut. induction rows as [|[[i slo] a] rest IH]; intros fut Hfut Hr;
    simpl in Hr.
  - injection Hr as <-. exact Hfut.
  - inv_bind Hr. apply P_init in Ha.
    pose proof (sq_append_keeps P arrival_time fut a0 Hfut Ha) as Hf.
    destruct (_ && _) in Hr.
    + injection Hr as <-. exact Hf.
    + eapply IH; [exact Hf | exact Hr].
Qed.

Lemma initial_state_keeps {PS} args arrival_times fut (ps : PS) s0 :
  create_requests batch_runtimes args arrival_times = Ok fut →
  initial_state fut ps = Ok s0 →
  everywhere P s0.
Proof.
  intros Hc Hi.
  assert (Hfut : Forall P fut).
  { unfold create_requests in Hc. destruct (args_slo_csv args).
    - eapply requests_from_csv_keeps; [constructor | exact Hc].
    - eapply requests_from_trace_keeps; [constructor | exact Hc]. }
  unfold initial_state in Hi. destruct fut as [|r fut]; [discriminate|].
  injection Hi as <-. repeat split; try constructor; inversion Hfut; auto.
Qed.

End SetUp.

(** The test policies keep any property of requests that
    [Request.preempt] keeps. *)
Lemma fill_policy_keeps {T} `{TimeOps T} (P : Request T → Prop) max wakeup :
  policy_keeps P (fill_policy max wakeup).
Proof.
  split; simpl; unfold fill_schedule, no_preempt; simpl.
  - intros _ batch q _ Hb Hq. split.
    + apply Forall_app. split; [exact Hb | apply Forall_take; exact Hq].
    + apply Forall_drop. exact Hq.
  - intros; split; assumption.
Qed.

(** ** The request life cycle *)

Section Lifecycle.
Context {T : Type} `{TimeOps T}.
Variable batch_runtimes : gmap Z T.
Context {PS : Type}.
Variable scheduler : Scheduler T PS.

Lemma Request_init_inv a i slo r :
  Request_init batch_runtimes a i slo = Ok r →
  ∃ d1, batch_runtimes !! 1 = Some d1
        ∧ r = {| arrival_time := a; id := i; queue_time := None;
                 dropped_time := None; execution_time := None;
                 finish_time := None; batch_size := None; slo_factor := slo;
                 deadline := tadd a (tmul slo d1) |}.
Proof.
  unfold Request_init, runtime. intros Hr.
  destruct (batch_runtimes !! 1) as [d1|]; [|discriminate].
  injection Hr as <-. eauto.
Qed.

(** C5. The four scheduling fields of a request are all unset or all set,
    never partly set: after construction (all unset), after
    [Request.schedule] (all set), after [Request.preempt] (all unset),
    after [get_dropped] (untouched), in the state the loop starts from,
    and between any two steps of the engine run with a policy that itself
    keeps the fields together. *)
Theorem scheduling_fields_all_or_nothing :
  (∀ a i slo r,
      Request_init batch_runtimes a i slo = Ok r → all_or_nothing r = true)
  ∧ (∀ (r : Request T) now b d,
        all_or_nothing (Request_schedule r now b d) = true)
  ∧ (∀ r : Request T, all_or_nothing (Request_preempt r) = true)
  ∧ (∀ (r : Request T) now,
        all_or_nothing (Request_get_dropped r now) = all_or_nothing r)
  ∧ (∀ args arrival_times fut (ps : PS) s0,
        create_requests batch_runtimes args arrival_times = Ok fut →
        initial_state fut ps = Ok s0 →
        everywhere (λ r, all_or_nothing r = true) s0)
  ∧ (∀ preemption n (s : State T PS) st,
        policy_keeps (λ r, all_or_nothing r = true) scheduler →
        everywhere (λ r, all_or_nothing r = true) s →
        run batch_runtimes scheduler preemption n s = Ok st →
        everywhere (λ r, all_or_nothing r = true) (state_of st)).
Proof.
  assert (Hinit : ∀ a i slo r,
             Request_init batch_runtimes a i slo = Ok r →
             all_or_nothing r = true).
  { intros a i slo r Hr. apply Request_init_inv in Hr as (d1 & _ & ->).
    reflexivity. }
  refine (conj Hinit (conj _ (conj _ (conj _ (conj _ _)))));
    try reflexivity.
  - intros args arrival_times fut ps s0.
    apply (initial_state_keeps batch_runtimes _ Hinit).
  - intros preemption n s st Hpol.
    apply (run_keeps batch_runtimes scheduler _); auto.
Qed.

(** C9. The deadline of a request is [arrival_time + slo_factor *
    duration(1)], computed by the constructor, which needs the size-1 entry
    of the profile; no operation writes it afterwards: [Request.schedule],
    [Request.preempt] and [get_dropped] leave it (and the arrival time, the
    SLO factor and the id) as they are, dropping appends the dropped
    requests to the history with only [dropped_time] stamped, batch
    completion moves the batch to the history unchanged, and all along a
    run every request still carries the values it was built with and its
    deadline is still derived from them, provided the policy does not
    tamper with them either. *)
Theorem deadline_fixed_at_construction :
  (∀ a i slo,
      batch_runtimes !! 1 = None →
      Request_init batch_runtimes a i slo = Raise (KeyError 1))
  ∧ (∀ a i slo d1,
        batch_runtimes !! 1 = Some d1 →
        ∃ r, Request_init batch_runtimes a i slo = Ok r
             ∧ arrival_time r = a ∧ slo_factor r = slo
             ∧ deadline r = tadd a (tmul slo d1))
  ∧ (∀ (r : Request T) now b d,
        construction (Request_schedule r now b d) = construction r)
  ∧ (∀ r : Request T, construction (Request_preempt r) = construction r)
  ∧ (∀ (r : Request T) now,
        construction (Request_get_dropped r now) = construction r)
  ∧ (∀ now (batch : SortedQueue T) fin ids fin',
        drain now batch fin = Ok (ids, fin') → fin' = fin ++ batch)
  ∧ (∀ d1 args arrival_times fut (ps : PS) s0,
        batch_runtimes !! 1 = Some d1 →
        create_requests batch_runtimes args arrival_times = Ok fut →
        initial_state fut ps = Ok s0 →
        everywhere (deadline_derived d1) s0)
  ∧ (∀ d1 preemption n (s : State T PS) st,
        policy_keeps (deadline_derived d1) scheduler →
        everywhere (deadline_derived d1) s →
        run batch_runtimes scheduler preemption n s = Ok st →
        everywhere (deadline_derived d1) (state_of st))
  ∧ (∀ S preemption n (s : State T PS) st,
        policy_keeps (built_as S) scheduler →
        everywhere (built_as S) s →
        run batch_runtimes scheduler preemption n s = Ok st →
        everywhere (built_as S) (state_of st)).
Proof.
  refine (conj _ (conj _ (conj _ (conj _ (conj _ (conj _ (conj _
            (conj _ _))))))));
    try reflexivity.
  - intros a i slo Hd1. unfold Request_init, runtime. rewrite Hd1.
    reflexivity.
  - intros a i slo d1 Hd1. unfold Request_init, runtime. rewrite Hd1.
    simpl. eauto.
  - intros now batch fin ids fin' Hd.
    eapply drain_appends; exact Hd.
  - intros d1 args arrival_times fut ps s0 Hd1.
    apply (initial_state_keeps batch_runtimes).
    intros a0 i slo r Hr. apply Request_init_inv in Hr as (d & Hd & ->).
    unfold deadline_derived. simpl. congruence.
  - intros d1 preemption n s st Hpol.
    apply (run_keeps batch_runtimes scheduler _); auto.
  - intros S preemption n s st Hpol.
    apply (run_keeps batch_runtimes scheduler _); auto.
Qed.

End Lifecycle.

Lemma scheduling_fields_all_or_nothing_witness :
  policy_keeps (λ r : Request float, all_or_nothing r = true)
               (fill_policy 2 (λ _, infinity))
  ∧ everywhere (λ r, all_or_nothing r = true) scenario_B
  ∧ match run profile_AB (fill_policy 2 (λ _, infinity)) false 3 scenario_B
    with
    | Ok st => everywhere (λ r, all_or_nothing r = true) (state_of st)
    | Raise _ => False
    end.
Proof.
  assert (Hs : everywhere (λ r : Request float, all_or_nothing r = true)
                          scenario_B).
  { repeat split; repeat constructor. }
  split; [apply fill_policy_keeps|]. split; [exact Hs|].
  destruct (run profile_AB (fill_policy 2 (λ _, infinity)) false 3 scenario_B)
    as [st|e] eqn:E.
  - exact (proj2 (proj2 (proj2 (proj2 (proj2
             (scheduling_fields_all_or_nothing profile_AB
                (fill_policy 2 (λ _, infinity)))))))
             false 3%nat scenario_B st
             (fill_policy_keeps _ 2%nat (λ _, infinity)) Hs E).
  - vm_compute in E. discriminate E.
Defined.

Lemma deadline_fixed_at_construction_witness :
  policy_keeps (deadline_derived 10%float) (fill_policy 2 (λ _, infinity))
  ∧ everywhere (deadline_derived 10%float) scenario_B
  ∧ match run profile_AB (fill_policy 2 (λ _, infinity)) false 3 scenario_B
    with
    | Ok st => everywhere (deadline_derived 10%float) (state_of st)
    | Raise _ => False
    end.
Proof.
  assert (Hs : everywhere (deadline_derived 10%float) scenario_B).
  { repeat split; repeat constructor. }
  split; [apply fill_policy_keeps|]. split; [exact Hs|].
  destruct (run profile_AB (fill_policy 2 (λ _, infinity)) false 3 scenario_B)
    as [st|e] eqn:E.
  - exact (proj1 (proj2 (proj2 (proj2 (proj2 (proj2 (proj2 (proj2
             (deadline_fixed_at_construction profile_AB
                (fill_policy 2 (λ _, infinity))))))))))
             10%float false 3%nat scenario_B st
             (fill_policy_keeps _ 2%nat (λ _, infinity)) Hs E).
  - vm_compute in E. discriminate E.
Defined.

(** ** Admission control runs before the arrival gate *)

Section Arrival.
Context {T : Type} `{TimeOps T}.
Variable batch_runtimes : gmap Z T.
Context {PS : Type}.

Lemma drop_requests_inv now (q : SortedQueue T) fin ids q' fin' :
  drop_requests batch_runtimes now q fin = Ok (ids, q', fin') →
  ∃ dropped,
    q = dropped ++ q' ∧ ids = map id dropped
    ∧ fin' = fin ++ map (λ r, Request_get_dropped r now) dropped.
Proof.
  revert fin ids. induction q as [|req rest IH]; intros fin ids Hrun.
  - injection Hrun as <- <- <-. exists []. simpl. rewrite app_nil_r. auto.
  - simpl in Hrun. inv_bind Hrun.
    destruct (tltb (deadline req) (tadd now a)).
    + inv_bind Hrun. destruct a0 as [[ids0 q0] fin0].
      injection Hrun as <- <- <-.
      apply IH in Ha0 as (dropped & -> & -> & ->).
      exists (req :: dropped). rewrite <- app_assoc. auto.
    + injection Hrun as <- <- <-. exists []. simpl. rewrite app_nil_r. auto.
Qed.

Lemma elem_of_sq_append key (q : SortedQueue T) x r :
  r ∈ sq_append key q x ↔ r = x ∨ r ∈ q.
Proof.
  induction q as [|y q IH]; simpl.
  - rewrite list_elem_of_singleton, elem_of_nil. tauto.
  - destruct (tltb (key x) (key y)).
    + rewrite elem_of_cons. tauto.
    + rewrite !elem_of_cons, IH. tauto.
Qed.

Lemma elem_of_foldl_sq_append (q arrived : SortedQueue T) r :
  r ∈ foldl (sq_append deadline) q arrived ↔ r ∈ q ∨ r ∈ arrived.
Proof.
  revert q. induction arrived as [|x xs IH]; intros q; simpl.
  - rewrite elem_of_nil. tauto.
  - rewrite IH, elem_of_sq_append, elem_of_cons. tauto.
Qed.

(** What [fetch_new_requests] does: it moves the longest prefix of
    requests that have arrived, one by one, into the waiting container. *)
Lemma fetch_new_requests_split now (fut q : SortedQueue T) :
  ∃ arrived rest,
    fut = arrived ++ rest
    ∧ fetch_new_requests now fut q
      = (map id arrived, rest, foldl (sq_append deadline) q arrived)
    ∧ Forall (λ r, tleb (arrival_time r) now = true) arrived
    ∧ match rest with
      | [] => True
      | r :: _ => tleb (arrival_time r) now = false
      end.
Proof.
  revert q. induction fut as [|req rest IH]; intros q.
  - exists [], []. simpl. auto.
  - simpl. destruct (tleb (arrival_time req) now) eqn:Hle.
    + destruct (IH (sq_append deadline q req))
        as (arrived & rest' & -> & Hrun & Hall & Hhead).
      exists (req :: arrived), rest'. rewrite Hrun. simpl. auto.
    + exists [], (req :: rest). simpl. auto.
Qed.


End Arrival.


(** ** The clock *)

Section Clock.
Context {T : Type} `{TimeOps T}.
Variable batch_runtimes : gmap Z T.
Context {PS : Type}.
Variable scheduler : Scheduler T PS.
Variable preemption : bool.

Lemma drop_and_fetch_head (s s1 : State T PS) :
  drop_and_fetch batch_runtimes s = Ok s1 →
  head_not_arrived (current_time s) s1.
Proof.
  unfold drop_and_fetch. intros Hs.
  inv_bind Hs. destruct a as [[ids q1] fin1].
  destruct (fetch_new_requests_split (current_time s) (future_requests s) q1)
    as (arrived & rest & _ & Hrun & _ & Hhead).
  rewrite Hrun in Hs. injection Hs as <-. exact Hhead.
Qed.

Lemma check_preemption_times event (s s1 : State T PS) :
  check_preemption batch_runtimes scheduler preemption event s = Ok s1 →
  current_time s1 = current_time s
  ∧ next_check_time s1 = next_check_time s
  ∧ future_requests s1 = future_requests s
  ∧ finish_from batch_runtimes s s1.
Proof.
  unfold check_preemption, finish_from. intros Hs.
  destruct (bool_decide (event = CHECK_PREEMPTION) && preemption).
  - destruct (preempt scheduler (scheduler_state s) (current_batch s)
                (queue s) (current_time s) (batch_finish_time s))
      as [[[ps batch] q1] did].
    inv_bind Hs. injection Hs as <-. simpl. repeat split; auto.
    destruct did.
    + inv_bind Ha. injection Ha as <-.
      unfold runtime in Ha0.
      destruct (batch_runtimes !! Z.of_nat (length batch)) as [d|] eqn:Hd;
        [|discriminate].
      injection Ha0 as <-. right. right. eauto.
    + injection Ha as <-. auto.
  - injection Hs as <-. auto.
Qed.

Lemma batch_finished_times event (s s1 : State T PS) :
  batch_finished event s = Ok s1 →
  current_time s1 = current_time s
  ∧ next_check_time s1 = next_check_time s
  ∧ future_requests s1 = future_requests s
  ∧ (batch_finish_time s1 = batch_finish_time s
     ∨ batch_finish_time s1 = tinf).
Proof.
  unfold batch_finished. intros Hs.
  destruct (bool_decide (event = BATCH_FINISHED)).
  - destruct (0 <? length (current_batch s))%nat; [|discriminate].
    inv_bind Hs. destruct a as [ids fin1].
    injection Hs as <-. simpl. auto.
  - injection Hs as <-. auto.
Qed.

Lemma schedule_next_times event (s s1 : State T PS) :
  schedule_next batch_runtimes scheduler event s = Ok s1 →
  current_time s1 = current_time s
  ∧ future_requests s1 = future_requests s
  ∧ wakeup_from scheduler s s1
  ∧ finish_from batch_runtimes s s1.
Proof.
  unfold schedule_next, wakeup_from, finish_from. intros Hs.
  destruct (bool_decide (event ≠ CHECK_PREEMPTION)).
  - destruct (schedule scheduler (scheduler_state s) (current_batch s)
                (queue s) (current_time s)) as [[[ps batch] q1] nct] eqn:Hsch.
    inv_bind Hs. destruct a as [batch1 bft]. injection Hs as <-. simpl.
    repeat split; auto.
    + right. exists (scheduler_state s), (current_batch s), (queue s).
      rewrite Hsch. reflexivity.
    + destruct (0 <? length batch)%nat.
      * inv_bind Ha. injection Ha as <- <-.
        unfold runtime in Ha0.
        destruct (batch_runtimes !! Z.of_nat (length batch)) as [d|] eqn:Hd;
          [|discriminate].
        injection Ha0 as <-. right. right. eauto.
      * injection Ha as <- <-. auto.
  - injection Hs as <-. auto.
Qed.

(** An iteration seen from its last step. *)
Lemma loop_body_times (s : State T PS) st :
  loop_body batch_runtimes scheduler preemption s = Ok st →
  ∃ s4, advance s4 = Ok st
        ∧ current_time s4 = current_time s
        ∧ wakeup_from scheduler s s4
        ∧ finish_from batch_runtimes s s4
        ∧ head_not_arrived (current_time s) s4.
Proof.
  unfold loop_body. intros Hst.
  inv_bind Hst. rename a into s1.
  inv_bind Hst. rename a into s2.
  inv_bind Hst. rename a into s3.
  inv_bind Hst. rename a into s4.
  pose proof (drop_and_fetch_head _ _ Ha) as Hh.
  apply drop_and_fetch_frame in Ha as (_ & Ht1 & Hb1 & Hn1 & _).
  apply check_preemption_times in Ha0 as (Ht2 & Hn2 & Hf2 & Hb2).
  apply batch_finished_times in Ha1 as (Ht3 & Hn3 & Hf3 & Hb3).
  apply schedule_next_times in Ha2 as (Ht4 & Hf4 & Hn4 & Hb4).
  exists s4. split; [exact Hst|].
  unfold wakeup_from, finish_from, head_not_arrived in *.
  rewrite Ht3, Ht2, Ht1 in *. rewrite Hf4, Hf3, Hf2.
  rewrite Hn3, Hn2, Hn1 in Hn4.
  repeat split; auto; try congruence.
  destruct Hb4 as [E4|Hb4]; [|right; exact Hb4].
  destruct Hb3 as [E3|E3]; [|right; left; congruence].
  destruct Hb2 as [E2|[E2|(k & d & Hd & E2)]].
  - left. congruence.
  - right. left. congruence.
  - right. right. exists k, d. split; [exact Hd | congruence].
Qed.

(** The loop leaves through [break] only, and only with the three
    containers empty. *)
Lemma advance_break (s : State T PS) s' :
  advance s = Ok (Break s') → s' = s ∧ all_empty s.
Proof.
  unfold advance, all_empty. intros Hs.
  destruct (length (future_requests s) =? 0)%nat eqn:E1;
    destruct (length (queue s) =? 0)%nat eqn:E2;
    destruct (length (current_batch s) =? 0)%nat eqn:E3; simpl in Hs;
    try (destruct (next_check_time s); simpl in Hs; [|discriminate];
         destruct (_ && _ && _) in Hs; discriminate).
  injection Hs as <-.
  apply Nat.eqb_eq in E1, E2, E3.
  apply length_zero_iff_nil in E1, E2, E3. auto.
Qed.

Lemma advance_continue (s : State T PS) s' :
  advance s = Ok (Continue s') →
  ∃ nct, next_check_time s = Some nct
         ∧ current_time s'
           = min3 nct (batch_finish_time s)
                  (match future_requests s with
                   | req :: _ => arrival_time req
                   | [] => tinf
                   end).
Proof.
  unfold advance. intros Hs.
  destruct (_ && _ && _) in Hs; [discriminate|].
  destruct (next_check_time s) as [t|]; [|discriminate].
  simpl in Hs. destruct (_ && _ && _) in Hs; [discriminate|].
  injection Hs as <-. simpl. eauto.
Qed.

Lemma min3_cases (a b c : T) : min3 a b c = a ∨ min3 a b c = b ∨ min3 a b c = c.
Proof.
  unfold min3. destruct (tltb b a); destruct (tltb c _); auto.
Qed.

Context `{!TimeOrder T}.

Lemma tltb_true_tleb (a b : T) : tltb a b = true → tleb a b = true.
Proof.
  rewrite tltb_tleb. intros Hn. apply negb_true_iff in Hn.
  apply tleb_total. exact Hn.
Qed.

Lemma tltb_false_tleb (a b : T) : tltb a b = false → tleb b a = true.
Proof. rewrite tltb_tleb. intros Hn. apply negb_false_iff in Hn. exact Hn. Qed.

Lemma min3_le (a b c : T) :
  tleb (min3 a b c) a = true ∧ tleb (min3 a b c) b = true
  ∧ tleb (min3 a b c) c = true.
Proof.
  unfold min3.
  destruct (tltb b a) eqn:Hba.
  - apply tltb_true_tleb in Hba.
    destruct (tltb c b) eqn:Hcb.
    + apply tltb_true_tleb in Hcb.
      repeat split; eauto using tleb_refl, tleb_trans.
    + apply tltb_false_tleb in Hcb.
      repeat split; eauto using tleb_refl, tleb_trans.
  - apply tltb_false_tleb in Hba.
    destruct (tltb c a) eqn:Hca.
    + apply tltb_true_tleb in Hca.
      repeat split; eauto using tleb_refl, tleb_trans.
    + apply tltb_false_tleb in Hca.
      repeat split; eauto using tleb_refl, tleb_trans.
Qed.

Hypothesis policy_wakeup : wakeup_not_in_past scheduler.
Hypothesis profile_nonneg : durations_nonneg batch_runtimes.

(** One iteration, started with the clock behind the wake-up times it
    holds: the clock does not go back, and is again behind them. *)
Lemma loop_body_clock (s s' : State T PS) :
  clock_behind s →
  loop_body batch_runtimes scheduler preemption s = Ok (Continue s') →
  tleb (current_time s) (current_time s') = true ∧ clock_behind s'.
Proof.
  intros [Hbft Hnct] Hst.
  apply loop_body_times in Hst as (s4 & Hadv & Ht & Hw & Hb & Hh).
  destruct (advance_continue _ _ Hadv) as (nct & Hn & Htime).
  apply advance_frame in Hadv as (_ & _ & _ & _ & Eb & En & _).
  simpl in Eb, En.
  assert (Hnct4 : tleb (current_time s) nct = true).
  { destruct Hw as [E|(ps & b & q & E)].
    - apply Hnct. congruence.
    - rewrite Hn in E. injection E as ->. apply policy_wakeup. }
  assert (Hbft4 : tleb (current_time s) (batch_finish_time s4) = true).
  { destruct Hb as [E|[E|(k & d & Hd & E)]]; rewrite E.
    - exact Hbft.
    - apply tleb_inf.
    - apply tadd_nonneg. eapply profile_nonneg. exact Hd. }
  assert (Hnra : tleb (current_time s)
                      (match future_requests s4 with
                       | req :: _ => arrival_time req
                       | [] => tinf
                       end) = true).
  { unfold head_not_arrived in Hh.
    destruct (future_requests s4) as [|r rest].
    - apply tleb_inf.
    - apply tleb_total. exact Hh. }
  split.
  - rewrite Htime.
    destruct (min3_cases nct (batch_finish_time s4)
                (match future_requests s4 with
                 | req :: _ => arrival_time req
                 | [] => tinf
                 end)) as [E|[E|E]]; rewrite E; assumption.
  - unfold clock_behind. rewrite Eb, En, Hn, Htime. split.
    + apply min3_le.
    + intros t [= <-]. apply min3_le.
Qed.

Lemma run_clock n (s0 s : State T PS) :
  clock_behind s0 →
  run batch_runtimes scheduler preemption n s0 = Ok (Continue s) →
  clock_behind s.
Proof.
  revert s0. induction n as [|n IH]; intros s0 H0 Hrun; simpl in Hrun.
  - injection Hrun as <-. exact H0.
  - inv_bind Hrun. destruct a as [s1|s1]; [discriminate|].
    apply loop_body_clock in Ha as [_ H1]; [|exact H0].
    eapply IH; [exact H1 | exact Hrun].
Qed.

End Clock.

Section ClockClaim.
Context {T : Type} `{TimeOps T} `{!TimeOrder T}.
Variable batch_runtimes : gmap Z T.
Context {PS : Type}.
Variable scheduler : Scheduler T PS.


End ClockClaim.



(** ** The drain of a finished batch *)

Section Drain.
Context {T : Type} `{TimeOps T}.
Variable batch_runtimes : gmap Z T.
Context {PS : Type}.
Variable scheduler : Scheduler T PS.
Variable preemption : bool.

Lemma drain_ok now (batch : SortedQueue T) fin :
  Forall (λ r, finish_time_is r now = true) batch →
  drain now batch fin = Ok (map id batch, fin ++ batch).
Proof.
  intros Hall. revert fin.
  induction Hall as [|req rest Hreq Hrest IH]; intros fin; simpl.
  - rewrite app_nil_r. reflexivity.
  - rewrite Hreq, IH. simpl. rewrite <- app_assoc. reflexivity.
Qed.

(** A finished batch that drains is appended to the history as it is, and
    the batch finish time is reset to [math.inf]. *)
Lemma batch_finished_drains (s s1 : State T PS) :
  batch_finished BATCH_FINISHED s = Ok s1 →
  finished_requests s1 = finished_requests s ++ current_batch s
  ∧ current_batch s1 = []
  ∧ batch_finish_time s1 = tinf
  ∧ Forall (λ r, finish_time_is r (current_time s) = true) (current_batch s).
Proof.
  unfold batch_finished. simpl. intros Hs.
  destruct (0 <? length (current_batch s))%nat; [|discriminate].
  inv_bind Hs. destruct a as [ids fin1].
  apply drain_appends in Ha as (-> & _ & Hall).
  injection Hs as <-. simpl. auto.
Qed.

Lemma runtime_raise k e : runtime batch_runtimes k = Raise e → e = KeyError k.
Proof.
  unfold runtime. destruct (batch_runtimes !! k); [discriminate|].
  intros [= <-]. reflexivity.
Qed.

Lemma drop_requests_raise now (q : SortedQueue T) fin e :
  drop_requests batch_runtimes now q fin = Raise e → e = KeyError 1.
Proof.
  revert fin. induction q as [|req rest IH]; intros fin Hrun; simpl in Hrun.
  - discriminate.
  - destruct (runtime batch_runtimes 1) as [d1|e1] eqn:Hd; simpl in Hrun.
    + destruct (tltb (deadline req) (tadd now d1)); [|discriminate].
      destruct (drop_requests batch_runtimes now rest
                  (fin ++ [Request_get_dropped req now]))
        as [[[ids q1] fin1]|e1] eqn:Hrec; simpl in Hrun; [discriminate|].
      injection Hrun as <-. eapply IH. exact Hrec.
    + injection Hrun as <-. eapply runtime_raise. exact Hd.
Qed.

Hypothesis policy_restamps :
  preemption = false ∨ preempt_restamps batch_runtimes scheduler.

(** The stamps of the in-flight batch agree with the recorded batch finish
    time from one iteration to the next. *)
Lemma loop_body_keeps_stamped (s : State T PS) st :
  batch_stamped s →
  loop_body batch_runtimes scheduler preemption s = Ok st →
  batch_stamped (state_of st).
Proof.
  unfold batch_stamped, loop_body. intros Hs Hst.
  inv_bind Hst. rename a into s1.
  inv_bind Hst. rename a into s2.
  inv_bind Hst. rename a into s3.
  inv_bind Hst. rename a into s4.
  apply drop_and_fetch_frame in Ha as (Eb1 & Et1 & Ef1 & _).
  rewrite <- Eb1, <- Ef1 in Hs.
  assert (H2 : Forall (λ r, finish_time r = Some (batch_finish_time s2))
                      (current_batch s2)).
  { unfold check_preemption in Ha0.
    destruct (bool_decide (classify s = CHECK_PREEMPTION) && preemption)
      eqn:Hc; [|injection Ha0 as <-; exact Hs].
    destruct policy_restamps as [->|Hre];
      [rewrite andb_false_r in Hc; discriminate|].
    specialize (Hre (scheduler_state s1) (current_batch s1) (queue s1)
                    (current_time s1) (batch_finish_time s1)).
    destruct (preempt scheduler (scheduler_state s1) (current_batch s1)
                (queue s1) (current_time s1) (batch_finish_time s1))
      as [[[ps batch] q1] did].
    simpl in Hre. inv_bind Ha0. injection Ha0 as <-. simpl.
    destruct did.
    - inv_bind Ha. injection Ha as <-. apply Hre.
      unfold runtime in Ha0.
      destruct (batch_runtimes !! Z.of_nat (length batch)); [|discriminate].
      congruence.
    - injection Ha as <-. rewrite Hre. exact Hs. }
  assert (H3 : Forall (λ r, finish_time r = Some (batch_finish_time s3))
                      (current_batch s3)).
  { unfold batch_finished in Ha1.
    destruct (bool_decide (classify s = BATCH_FINISHED));
      [|injection Ha1 as <-; exact H2].
    destruct (0 <? length (current_batch s2))%nat; [|discriminate].
    inv_bind Ha1. destruct a as [ids fin1]. injection Ha1 as <-.
    constructor. }
  assert (H4 : Forall (λ r, finish_time r = Some (batch_finish_time s4))
                      (current_batch s4)).
  { unfold schedule_next in Ha2.
    destruct (bool_decide (classify s ≠ CHECK_PREEMPTION));
      [|injection Ha2 as <-; exact H3].
    destruct (schedule scheduler (scheduler_state s3) (current_batch s3)
                (queue s3) (current_time s3)) as [[[ps batch] q1] nct].
    inv_bind Ha2. destruct a as [batch1 bft]. injection Ha2 as <-. simpl.
    destruct (0 <? length batch)%nat eqn:Hlen.
    - inv_bind Ha. injection Ha as <- <-.
      apply Forall_map, Forall_forall. intros x _. reflexivity.
    - injection Ha as <- <-. apply Nat.ltb_ge in Hlen.
      destruct batch; [constructor | simpl in Hlen; lia]. }
  apply advance_frame in Hst as (_ & _ & _ & -> & -> & _). exact H4.
Qed.

Context `{!TimeOrder T}.

(** With the stamps in agreement, the assertion of the drain loop does not
    fire. *)
Lemma loop_body_drain_assertion_holds (s : State T PS) e :
  batch_stamped s →
  loop_body batch_runtimes scheduler preemption s = Raise e →
  e ≠ finish_time_assertion.
Proof.
  unfold batch_stamped, loop_body, finish_time_assertion. intros Hs Hst.
  destruct (drop_and_fetch batch_runtimes s) as [s1|e1] eqn:H1; simpl in Hst.
  2:{ injection Hst as <-. unfold drop_and_fetch in H1.
      destruct (drop_requests batch_runtimes (current_time s) (queue s)
                  (finished_requests s)) as [[[ids q1] fin1]|e2] eqn:Hd;
        simpl in H1.
      - destruct (fetch_new_requests (current_time s) (future_requests s) q1)
          as [[ids' fut'] q2]. discriminate.
      - injection H1 as <-. apply drop_requests_raise in Hd as ->.
        discriminate. }
  apply drop_and_fetch_frame in H1 as (Eb1 & Et1 & Ef1 & _).
  destruct (check_preemption batch_runtimes scheduler preemption
              (classify s) s1) as [s2|e2] eqn:H2; simpl in Hst.
  2:{ injection Hst as <-. unfold check_preemption in H2.
      destruct (bool_decide (classify s = CHECK_PREEMPTION) && preemption);
        [|discriminate].
      destruct (preempt scheduler (scheduler_state s1) (current_batch s1)
                  (queue s1) (current_time s1) (batch_finish_time s1))
        as [[[ps batch] q1] did].
      destruct did; simpl in H2; [|discriminate].
      destruct (runtime batch_runtimes (Z.of_nat (length batch)))
        as [d|e3] eqn:Hd; simpl in H2; [discriminate|].
      injection H2 as <-. apply runtime_raise in Hd as ->. discriminate. }
  destruct (batch_finished (classify s) s2) as [s3|e3] eqn:H3; simpl in Hst.
  2:{ injection Hst as <-. unfold batch_finished in H3.
      destruct (bool_decide (classify s = BATCH_FINISHED)) eqn:Hbf;
        [|discriminate].
      apply bool_decide_eq_true in Hbf.
      unfold check_preemption in H2. rewrite Hbf in H2. simpl in H2.
      injection H2 as <-.
      destruct (0 <? length (current_batch s1))%nat.
      - rewrite drain_ok in H3; [discriminate|].
        rewrite Eb1, Et1.
        eapply Forall_impl; [exact Hs|]. intros r Hr.
        unfold finish_time_is. rewrite Hr, teqb_sym.
        revert Hbf. unfold classify.
        destruct (length (current_batch s) =? 0)%nat; [discriminate|].
        destruct (teqb (current_time s) (batch_finish_time s));
          [reflexivity | discriminate].
      - injection H3 as <-. discriminate. }
  destruct (schedule_next batch_runtimes scheduler (classify s) s3)
    as [s4|e4] eqn:H4; simpl in Hst.
  2:{ injection Hst as <-. unfold schedule_next in H4.
      destruct (bool_decide (classify s ≠ CHECK_PREEMPTION)); [|discriminate].
      destruct (schedule scheduler (scheduler_state s3) (current_batch s3)
                  (queue s3) (current_time s3)) as [[[ps batch] q1] nct].
      destruct (0 <? length batch)%nat; simpl in H4; [|discriminate].
      destruct (runtime batch_runtimes (Z.of_nat (length batch)))
        as [d|e5] eqn:Hd; simpl in H4; [discriminate|].
      injection H4 as <-. apply runtime_raise in Hd as ->. discriminate. }
  unfold advance in Hst.
  destruct (_ && _ && _) in Hst; [discriminate|].
  destruct (next_check_time s4); simpl in Hst.
  - destruct (_ && _ && _) in Hst; [|discriminate].
    injection Hst as <-. discriminate.
  - injection Hst as <-. discriminate.
Qed.

(** Hence no run that starts with the stamps in agreement, as the initial
    state does, fails the assertion of the drain loop, as long as
    preemption is disabled or the policy's [preempt] re-stamps the batch
    itself. *)
Lemma run_drain_assertion_holds n (s : State T PS) e :
  batch_stamped s →
  run batch_runtimes scheduler preemption n s = Raise e →
  e ≠ finish_time_assertion.
Proof.
  revert s. induction n as [|n IH]; intros s Hs Hrun; simpl in Hrun.
  - discriminate.
  - destruct (loop_body batch_runtimes scheduler preemption s)
      as [st|e1] eqn:Hst; simpl in Hrun.
    + apply loop_body_keeps_stamped in Hst; [|exact Hs].
      destruct st as [s'|s']; [discriminate|].
      eapply IH; [exact Hst | exact Hrun].
    + injection Hrun as <-.
      eapply loop_body_drain_assertion_holds; [exact Hs | exact Hst].
Qed.

End Drain.

(** C2, at the failing input.  With preemption enabled and a policy whose
    [preempt] pulls one of two in-flight requests back into the queue, the
    engine recomputes [batch_finish_time] (3 + 10 = 13) but leaves the
    finish time of the request still in flight as stamped at scheduling
    (0 + 15 = 15): the iteration at 13 is classified [BATCH_FINISHED], and
    the assertion of the drain loop fires. *)
Theorem preempted_batch_fails_drain_assertion :
  initial_state (future_requests scenario_preempt) tt = Ok scenario_preempt
  ∧ (calls <$> after profile_AB (shrink_policy 2) true 2 scenario_preempt)
    = Some [CallSchedule; CallPreempt]
  ∧ (current_time <$>
       after profile_AB (shrink_policy 2) true 2 scenario_preempt)
    = Some 13%float
  ∧ (batch_finish_time <$>
       after profile_AB (shrink_policy 2) true 2 scenario_preempt)
    = Some 13%float
  ∧ (classify <$> after profile_AB (shrink_policy 2) true 2 scenario_preempt)
    = Some BATCH_FINISHED
  ∧ (map finish_time ∘ current_batch <$>
       after profile_AB (shrink_policy 2) true 2 scenario_preempt)
    = Some [Some 15%float]
  ∧ run profile_AB (shrink_policy 2) true 3 scenario_preempt
    = Raise finish_time_assertion.
Proof. repeat split; vm_compute; reflexivity. Qed.

(** ** Configuration errors *)

Section Configuration.
Context {T : Type} `{TimeOps T}.
Context {PS : Type}.
Variable SimpleScheduler DynamicScheduler : Z → gmap Z T → Scheduler T PS * PS.

Lemma requests_from_trace_no_profile batch_runtimes args i arrival_times fut :
  batch_runtimes !! 1 = None →
  arrival_times ≠ [] →
  requests_from_trace batch_runtimes args i arrival_times fut
  = Raise (KeyError 1).
Proof.
  intros Hd1 Hne. destruct arrival_times as [|a rest]; [congruence|].
  simpl. unfold Request_init, runtime. rewrite Hd1. reflexivity.
Qed.

Lemma requests_from_csv_no_profile batch_runtimes args rows fut :
  batch_runtimes !! 1 = None →
  rows ≠ [] →
  requests_from_csv batch_runtimes args rows fut = Raise (KeyError 1).
Proof.
  intros Hd1 Hne. destruct rows as [|[[i slo] a] rest]; [congruence|].
  simpl. unfold Request_init, runtime. rewrite Hd1. reflexivity.
Qed.


End Configuration.



(** * Further properties of the engine *)

(** ** The admission controller and the arrival gate *)

Section Gate.
Context {T : Type} `{TimeOps T}.
Variable batch_runtimes : gmap Z T.

Lemma sorted_arrival_tail_waits `{!TimeOrder T} now (r : Request T) rest :
  sorted_by_arrival (r :: rest) →
  tleb (arrival_time r) now = false →
  Forall (λ x, tleb (arrival_time x) now = false) (r :: rest).
Proof.
  intros Hs Hr.
  apply Sorted_StronglySorted in Hs.
  2:{ intros a b c Hab Hbc. unfold arrival_le in *.
      eapply tleb_trans; eauto. }
  apply StronglySorted_inv in Hs as [_ Hall].
  constructor; [exact Hr|].
  eapply Forall_impl; [exact Hall|].
  intros x Hx. unfold arrival_le in Hx.
  destruct (tleb (arrival_time x) now) eqn:Hxn; [|reflexivity].
  rewrite (tleb_trans _ _ _ Hx Hxn) in Hr. discriminate.
Qed.

Lemma sorted_arrival_suffix (l1 l2 : SortedQueue T) :
  sorted_by_arrival (l1 ++ l2) → sorted_by_arrival l2.
Proof.
  induction l1 as [|x xs IH]; simpl; [auto|].
  intros Hs. apply IH. apply Sorted_inv in Hs. tauto.
Qed.


(** X2. Without a profile entry for batch size 1 the admission controller
    fails with [KeyError: 1] as soon as a request is waiting; on an empty
    waiting container it never reads the profile and returns no ids,
    leaving the history as it was. *)
Theorem drop_requests_without_size_1 now (q : SortedQueue T) fin :
  batch_runtimes !! 1 = None →
  drop_requests batch_runtimes now q fin
  = match q with
    | [] => Ok ([], [], fin)
    | _ :: _ => Raise (KeyError 1)
    end.
Proof.
  intros Hd1. destruct q as [|req rest]; [reflexivity|].
  simpl. unfold runtime. rewrite Hd1. reflexivity.
Qed.

(** X3. Admission control is idempotent at an instant: called again at
    the same time on the container and the history it has just left, it
    drops nothing and changes neither. *)
Theorem drop_requests_twice now (q : SortedQueue T) fin ids q' fin' :
  drop_requests batch_runtimes now q fin = Ok (ids, q', fin') →
  drop_requests batch_runtimes now q' fin' = Ok ([], q', fin').
Proof.
  revert fin ids. induction q as [|req rest IH]; intros fin ids Hrun.
  - injection Hrun as <- <- <-. reflexivity.
  - simpl in Hrun.
    destruct (runtime batch_runtimes 1) as [d1|e] eqn:Hd1; [|discriminate].
    simpl in Hrun.
    destruct (tltb (deadline req) (tadd now d1)) eqn:Hlt.
    + inv_bind Hrun. destruct a as [[ids0 q0] fin0].
      injection Hrun as <- <- <-. eapply IH. exact Ha.
    + injection Hrun as <- <- <-. simpl. rewrite Hd1. simpl.
      rewrite Hlt. reflexivity.
Qed.

End Gate.


Lemma drop_requests_without_size_1_witness :
  (∅ : gmap Z float) !! 1 = None
  ∧ drop_requests ∅ 0%float [fresh 10%float 0%float 0 5%float] []
    = Raise (KeyError 1).
Proof.
  split; [reflexivity|].
  exact (drop_requests_without_size_1 ∅ 0%float
           [fresh 10%float 0%float 0 5%float] [] eq_refl).
Defined.

Lemma drop_requests_twice_witness :
  match drop_requests profile_AB 3%float
          [fresh 10%float 0%float 0 1%float; fresh 10%float 0%float 1 5%float]
          [] with
  | Ok (ids, q', fin') =>
      drop_requests profile_AB 3%float q' fin' = Ok ([], q', fin')
  | Raise _ => False
  end.
Proof.
  destruct (drop_requests profile_AB 3%float
              [fresh 10%float 0%float 0 1%float;
               fresh 10%float 0%float 1 5%float] [])
    as [[[ids q'] fin']|e] eqn:E.
  - exact (drop_requests_twice profile_AB 3%float _ [] ids q' fin' E).
  - vm_compute in E. discriminate E.
Defined.

(** ** The stages of an iteration *)

Section Stages.
Context {T : Type} `{TimeOps T}.
Variable batch_runtimes : gmap Z T.
Context {PS : Type}.
Variable scheduler : Scheduler T PS.
Variable preemption : bool.

Lemma loop_body_Ok (s : State T PS) st :
  loop_body batch_runtimes scheduler preemption s = Ok st →
  ∃ s1 s2 s3 s4,
    drop_and_fetch batch_runtimes s = Ok s1
    ∧ check_preemption batch_runtimes scheduler preemption (classify s) s1
      = Ok s2
    ∧ batch_finished (classify s) s2 = Ok s3
    ∧ schedule_next batch_runtimes scheduler (classify s) s3 = Ok s4
    ∧ advance s4 = Ok st.
Proof.
  unfold loop_body. intros Hst.
  inv_bind Hst. inv_bind Hst. inv_bind Hst. inv_bind Hst.
  eauto 10.
Qed.

Lemma loop_body_Raise (s : State T PS) e :
  loop_body batch_runtimes scheduler preemption s = Raise e →
  drop_and_fetch batch_runtimes s = Raise e
  ∨ ∃ s1, drop_and_fetch batch_runtimes s = Ok s1
    ∧ (check_preemption batch_runtimes scheduler preemption (classify s) s1
       = Raise e
       ∨ ∃ s2, check_preemption batch_runtimes scheduler preemption
                 (classify s) s1 = Ok s2
         ∧ (batch_finished (classify s) s2 = Raise e
            ∨ ∃ s3, batch_finished (classify s) s2 = Ok s3
              ∧ (schedule_next batch_runtimes scheduler (classify s) s3
                 = Raise e
                 ∨ ∃ s4, schedule_next batch_runtimes scheduler
                           (classify s) s3 = Ok s4
                   ∧ advance s4 = Raise e))).
Proof.
  unfold loop_body. intros Hst.
  destruct (drop_and_fetch batch_runtimes s) as [s1|e1]; simpl in Hst;
    [|left; injection Hst as <-; reflexivity].
  right. exists s1. split; [reflexivity|].
  destruct (check_preemption batch_runtimes scheduler preemption
              (classify s) s1) as [s2|e2]; simpl in Hst; [|left; injection Hst as <-; reflexivity].
  right. exists s2. split; [reflexivity|].
  destruct (batch_finished (classify s) s2) as [s3|e3]; simpl in Hst;
    [|left; injection Hst as <-; reflexivity].
  right. exists s3. split; [reflexivity|].
  destruct (schedule_next batch_runtimes scheduler (classify s) s3)
    as [s4|e4]; simpl in Hst; [|left; injection Hst as <-; reflexivity].
  right. exists s4. split; [reflexivity | exact Hst].
Qed.

(** The blocks an event skips. *)
Lemma check_preemption_skip event (s : State T PS) :
  event ≠ CHECK_PREEMPTION →
  check_preemption batch_runtimes scheduler preemption event s = Ok s.
Proof.
  intros Hev. unfold check_preemption.
  rewrite bool_decide_eq_false_2 by exact Hev. reflexivity.
Qed.

Lemma batch_finished_skip event (s : State T PS) :
  event ≠ BATCH_FINISHED → batch_finished event s = Ok s.
Proof.
  intros Hev. unfold batch_finished.
  rewrite bool_decide_eq_false_2 by exact Hev. reflexivity.
Qed.

Lemma schedule_next_skip (s : State T PS) :
  schedule_next batch_runtimes scheduler CHECK_PREEMPTION s = Ok s.
Proof. reflexivity. Qed.

(** What each block can raise. *)
Lemma drop_and_fetch_raise (s : State T PS) e :
  drop_and_fetch batch_runtimes s = Raise e → e = KeyError 1.
Proof.
  unfold drop_and_fetch. intros Hs.
  destruct (drop_requests batch_runtimes (current_time s) (queue s)
              (finished_requests s)) as [[[ids q1] fin1]|e1] eqn:Hd;
    simpl in Hs.
  - destruct (fetch_new_requests (current_time s) (future_requests s) q1)
      as [[ids' fut'] q2]. discriminate.
  - injection Hs as <-. eapply drop_requests_raise. exact Hd.
Qed.

Lemma check_preemption_raise event (s : State T PS) e :
  check_preemption batch_runtimes scheduler preemption event s = Raise e →
  ∃ k, e = KeyError k.
Proof.
  unfold check_preemption. intros Hs.
  destruct (bool_decide (event = CHECK_PREEMPTION) && preemption);
    [|discriminate].
  destruct (preempt scheduler (scheduler_state s) (current_batch s)
              (queue s) (current_time s) (batch_finish_time s))
    as [[[ps batch] q1] did].
  destruct did; simpl in Hs; [|discriminate].
  destruct (runtime batch_runtimes (Z.of_nat (length batch)))
    as [d|e1] eqn:Hd; simpl in Hs; [discriminate|].
  injection Hs as <-. apply runtime_raise in Hd. eauto.
Qed.

Lemma drain_raise now (batch : SortedQueue T) fin e :
  drain now batch fin = Raise e → e = finish_time_assertion.
Proof.
  revert fin. induction batch as [|req rest IH]; intros fin Hd; simpl in Hd.
  - discriminate.
  - destruct (finish_time_is req now).
    + destruct (drain now rest (fin ++ [req])) as [[ids fin1]|e1] eqn:Hrec;
        simpl in Hd; [discriminate|].
      injection Hd as <-. eapply IH. exact Hrec.
    + injection Hd as <-. reflexivity.
Qed.

Lemma batch_finished_raise event (s : State T PS) e :
  batch_finished event s = Raise e →
  event = BATCH_FINISHED
  ∧ (e = finish_time_assertion
     ∨ (e = empty_batch_assertion ∧ current_batch s = [])).
Proof.
  unfold batch_finished. intros Hs.
  destruct (bool_decide (event = BATCH_FINISHED)) eqn:Hev; [|discriminate].
  apply bool_decide_eq_true in Hev. split; [exact Hev|].
  destruct (0 <? length (current_batch s))%nat eqn:Hlen.
  - left.
    destruct (drain (current_time s) (current_batch s) (finished_requests s))
      as [[ids fin1]|e1] eqn:Hd; simpl in Hs; [discriminate|].
    injection Hs as <-. eapply drain_raise. exact Hd.
  - injection Hs as <-. right. split; [reflexivity|].
    apply Nat.ltb_ge in Hlen.
    destruct (current_batch s); [reflexivity | simpl in Hlen; lia].
Qed.

Lemma schedule_next_raise event (s : State T PS) e :
  schedule_next batch_runtimes scheduler event s = Raise e →
  ∃ k, e = KeyError k.
Proof.
  unfold schedule_next. intros Hs.
  destruct (bool_decide (event ≠ CHECK_PREEMPTION)); [|discriminate].
  destruct (schedule scheduler (scheduler_state s) (current_batch s)
              (queue s) (current_time s)) as [[[ps batch] q1] nct].
  destruct (0 <? length batch)%nat; simpl in Hs; [|discriminate].
  destruct (runtime batch_runtimes (Z.of_nat (length batch)))
    as [d|e1] eqn:Hd; simpl in Hs; [discriminate|].
  injection Hs as <-. apply runtime_raise in Hd. eauto.
Qed.

Lemma advance_raise (s : State T PS) e :
  advance s = Raise e →
  e = deadlock_assertion
  ∨ (e = NameError "next_check_time" ∧ next_check_time s = None).
Proof.
  unfold advance. intros Hs.
  destruct (_ && _ && _) in Hs; [discriminate|].
  destruct (next_check_time s); simpl in Hs.
  - destruct (_ && _ && _) in Hs; [|discriminate].
    injection Hs as <-. left. reflexivity.
  - injection Hs as <-. right. auto.
Qed.

(** What the two policy blocks leave alone. *)
Lemma check_preemption_history event (s s1 : State T PS) :
  check_preemption batch_runtimes scheduler preemption event s = Ok s1 →
  finished_requests s1 = finished_requests s
  ∧ calls s1
    = calls s
      ++ (if bool_decide (event = CHECK_PREEMPTION) && preemption
          then [CallPreempt] else []).
Proof.
  unfold check_preemption. intros Hs.
  destruct (bool_decide (event = CHECK_PREEMPTION) && preemption).
  - destruct (preempt scheduler (scheduler_state s) (current_batch s)
                (queue s) (current_time s) (batch_finish_time s))
      as [[[ps batch] q1] did].
    inv_bind Hs. injection Hs as <-. simpl. auto.
  - injection Hs as <-. rewrite app_nil_r. auto.
Qed.

Lemma schedule_next_history event (s s1 : State T PS) :
  schedule_next batch_runtimes scheduler event s = Ok s1 →
  finished_requests s1 = finished_requests s
  ∧ calls s1
    = calls s
      ++ (if bool_decide (event ≠ CHECK_PREEMPTION)
          then [CallSchedule] else [])
  ∧ (event ≠ CHECK_PREEMPTION → is_Some (next_check_time s1))
  ∧ (event = CHECK_PREEMPTION → s1 = s).
Proof.
  unfold schedule_next. intros Hs.
  destruct (bool_decide (event ≠ CHECK_PREEMPTION)) eqn:Hev.
  - apply bool_decide_eq_true in Hev.
    destruct (schedule scheduler (scheduler_state s) (current_batch s)
                (queue s) (current_time s)) as [[[ps batch] q1] nct].
    inv_bind Hs. destruct a as [batch1 bft]. injection Hs as <-. simpl.
    repeat split; eauto. congruence.
  - apply bool_decide_eq_false in Hev.
    injection Hs as <-. rewrite app_nil_r. repeat split; auto.
    intros Hne. destruct Hev. exact Hne.
Qed.

Lemma batch_finished_history event (s s1 : State T PS) :
  batch_finished event s = Ok s1 →
  calls s1 = calls s
  ∧ ((event = BATCH_FINISHED
      ∧ finished_requests s1 = finished_requests s ++ current_batch s
      ∧ current_batch s1 = [])
     ∨ (event ≠ BATCH_FINISHED ∧ s1 = s)).
Proof.
  unfold batch_finished. intros Hs.
  destruct (bool_decide (event = BATCH_FINISHED)) eqn:Hev.
  - apply bool_decide_eq_true in Hev.
    destruct (0 <? length (current_batch s))%nat; [|discriminate].
    inv_bind Hs. destruct a as [ids fin1].
    apply drain_appends in Ha as (-> & _ & _).
    injection Hs as <-. simpl. auto.
  - apply bool_decide_eq_false in Hev. injection Hs as <-. auto.
Qed.

Lemma classify_nonempty (s : State T PS) :
  classify s ≠ NEW_REQS_ARRIVED → current_batch s ≠ [].
Proof.
  unfold classify. destruct (current_batch s); simpl; congruence.
Qed.

Lemma classify_empty (s : State T PS) :
  classify s = NEW_REQS_ARRIVED → current_batch s = [].
Proof.
  unfold classify. destruct (current_batch s) as [|r b]; simpl; [auto|].
  destruct (teqb _ _); discriminate.
Qed.

End Stages.

(** ** What an iteration does and never does *)

Section Iteration.
Context {T : Type} `{TimeOps T}.
Variable batch_runtimes : gmap Z T.
Context {PS : Type}.
Variable scheduler : Scheduler T PS.
Variable preemption : bool.

Lemma forallb_Forall_true {A} (f : A → bool) l :
  forallb f l = true ↔ Forall (λ x, f x = true) l.
Proof.
  induction l as [|x l IH]; simpl.
  - split; [constructor | reflexivity].
  - rewrite andb_true_iff, IH. split.
    + intros [Hx Hl]. constructor; assumption.
    + intros Hall. inversion Hall; subst. auto.
Qed.

(** X5. The batch-finished block is all or nothing: with a batch in
    flight it either moves the whole batch, in order, to the end of the
    history, empties the batch and resets [batch_finish_time] to
    [math.inf], or, when some request of the batch does not carry the
    current time as its finish time (an unset one included), raises the
    finish-time assertion. *)
Theorem batch_finished_all_or_assert (s : State T PS) :
  current_batch s ≠ [] →
  batch_finished BATCH_FINISHED s
  = if forallb (λ r, finish_time_is r (current_time s)) (current_batch s)
    then Ok {| queue := queue s;
               future_requests := future_requests s;
               finished_requests := finished_requests s ++ current_batch s;
               current_batch := [];
               current_time := current_time s;
               batch_finish_time := tinf;
               next_check_time := next_check_time s;
               num_iters := num_iters s;
               scheduler_state := scheduler_state s;
               calls := calls s |}
    else Raise finish_time_assertion.
Proof.
  intros Hne. unfold batch_finished.
  rewrite bool_decide_eq_true_2 by reflexivity.
  assert (Hlen : (0 <? length (current_batch s))%nat = true).
  { apply Nat.ltb_lt. destruct (current_batch s); [congruence | simpl; lia]. }
  rewrite Hlen.
  destruct (forallb _ _) eqn:Hall.
  - apply forallb_Forall_true in Hall.
    rewrite (drain_ok _ _ _ Hall). reflexivity.
  - destruct (drain (current_time s) (current_batch s) (finished_requests s))
      as [[ids fin1]|e] eqn:Hd; simpl.
    + apply drain_appends in Hd as (_ & _ & Hpass).
      apply forallb_Forall_true in Hpass. congruence.
    + apply drain_raise in Hd as ->. reflexivity.
Qed.

(** The wake-up time is bound when the loop body reads it. *)
Lemma stages_bind_wakeup (s s1 s2 s3 s4 : State T PS) :
  wakeup_bound s →
  drop_and_fetch batch_runtimes s = Ok s1 →
  check_preemption batch_runtimes scheduler preemption (classify s) s1
  = Ok s2 →
  batch_finished (classify s) s2 = Ok s3 →
  schedule_next batch_runtimes scheduler (classify s) s3 = Ok s4 →
  is_Some (next_check_time s4).
Proof.
  intros Hb H1 H2 H3 H4.
  apply schedule_next_history in H4 as (_ & _ & Hsome & Hsame).
  destruct (decide (classify s = CHECK_PREEMPTION)) as [Hc|Hc];
    [|exact (Hsome Hc)].
  rewrite (Hsame Hc).
  apply drop_and_fetch_frame in H1 as (_ & _ & _ & E1 & _).
  apply check_preemption_times in H2 as (_ & E2 & _).
  apply batch_finished_times in H3 as (_ & E3 & _).
  rewrite E3, E2, E1.
  destruct Hb as [Hb|Hb]; [|exact Hb].
  exfalso. eapply classify_nonempty; [|exact Hb]. congruence.
Qed.

Lemma loop_body_wakeup_bound (s : State T PS) st :
  wakeup_bound s →
  loop_body batch_runtimes scheduler preemption s = Ok st →
  wakeup_bound (state_of st).
Proof.
  intros Hb Hst.
  apply loop_body_Ok in Hst as (s1 & s2 & s3 & s4 & H1 & H2 & H3 & H4 & H5).
  pose proof (stages_bind_wakeup s s1 s2 s3 s4 Hb H1 H2 H3 H4) as Hsome.
  apply advance_frame in H5 as (_ & _ & _ & _ & _ & E & _).
  right. rewrite E. exact Hsome.
Qed.

Lemma loop_body_no_NameError (s : State T PS) e name :
  wakeup_bound s →
  loop_body batch_runtimes scheduler preemption s = Raise e →
  e ≠ NameError name.
Proof.
  intros Hb Hst.
  apply loop_body_Raise in Hst
    as [H1|(s1 & H1 & [H2|(s2 & H2 & [H3|(s3 & H3 & [H4|(s4 & H4 & H5)])])])].
  - apply drop_and_fetch_raise in H1 as ->. discriminate.
  - apply check_preemption_raise in H2 as [k ->]. discriminate.
  - apply batch_finished_raise in H3 as (_ & [->|[-> _]]); discriminate.
  - apply schedule_next_raise in H4 as [k ->]. discriminate.
  - pose proof (stages_bind_wakeup s s1 s2 s3 s4 Hb H1 H2 H3 H4) as Hsome.
    apply advance_raise in H5 as [->|[_ Hnone]]; [discriminate|].
    rewrite Hnone in Hsome. destruct Hsome; discriminate.
Qed.

(** X6. The local [next_check_time], which only the schedule block binds,
    is never read unbound: no run of the loop from its initial state
    fails with a [NameError], whatever the policy does. *)
Theorem wakeup_never_read_unbound fut (ps : PS) s0 n e name :
  initial_state fut ps = Ok s0 →
  run batch_runtimes scheduler preemption n s0 = Raise e →
  e ≠ NameError name.
Proof.
  intros Hinit.
  assert (H0 : wakeup_bound s0).
  { unfold initial_state in Hinit. destruct fut; [discriminate|].
    injection Hinit as <-. left. reflexivity. }
  clear Hinit. revert s0 H0.
  induction n as [|n IH]; intros s0 H0 Hrun; simpl in Hrun; [discriminate|].
  destruct (loop_body batch_runtimes scheduler preemption s0)
    as [st|e1] eqn:Hst; simpl in Hrun.
  - apply loop_body_wakeup_bound in Hst; [|exact H0].
    destruct st as [s'|s']; [discriminate|].
    eapply IH; [exact Hst | exact Hrun].
  - injection Hrun as <-. eapply loop_body_no_NameError; eauto.
Qed.

(** X7. The assertion that the batch is not empty, at the head of the
    batch-finished block, cannot fire: no iteration, from any state and
    with any policy, fails with it. *)
Theorem empty_batch_assertion_never_fires (s : State T PS) e :
  loop_body batch_runtimes scheduler preemption s = Raise e →
  e ≠ empty_batch_assertion.
Proof.
  intros Hst.
  apply loop_body_Raise in Hst
    as [H1|(s1 & H1 & [H2|(s2 & H2 & [H3|(s3 & H3 & [H4|(s4 & H4 & H5)])])])].
  - apply drop_and_fetch_raise in H1 as ->. discriminate.
  - apply check_preemption_raise in H2 as [k ->]. discriminate.
  - apply batch_finished_raise in H3 as (Hev & [->|[-> Hempty]]);
      [discriminate|].
    exfalso.
    rewrite check_preemption_skip in H2 by congruence.
    injection H2 as <-.
    apply drop_and_fetch_frame in H1 as (Eb & _).
    rewrite Eb in Hempty.
    eapply classify_nonempty; [|exact Hempty]. congruence.
  - apply schedule_next_raise in H4 as [k ->]. discriminate.
  - apply advance_raise in H5 as [->|[-> _]]; discriminate.
Qed.

(** X8. An iteration calls the policy at most once: [schedule], once, when
    the event is [NEW_REQS_ARRIVED] or [BATCH_FINISHED]; [preempt], once,
    when it is [CHECK_PREEMPTION] and preemption is enabled; nothing
    otherwise. *)
Theorem one_policy_call_per_iteration (s : State T PS) st :
  loop_body batch_runtimes scheduler preemption s = Ok st →
  calls (state_of st) = calls s ++ calls_of (classify s) preemption.
Proof.
  intros Hst.
  apply loop_body_Ok in Hst as (s1 & s2 & s3 & s4 & H1 & H2 & H3 & H4 & H5).
  apply drop_and_fetch_frame in H1 as (_ & _ & _ & _ & _ & _ & E1).
  apply check_preemption_history in H2 as (_ & E2).
  apply batch_finished_history in H3 as (E3 & _).
  apply schedule_next_history in H4 as (_ & E4 & _).
  apply advance_frame in H5 as (_ & _ & _ & _ & _ & _ & _ & E5).
  rewrite E5, E4, E3, E2, E1, <- app_assoc. f_equal.
  destruct (classify s), preemption; reflexivity.
Qed.

(** X9. The policy's [schedule] is only ever called with an empty
    in-flight batch (nothing in flight, or the batch just drained): an
    iteration behaves the same with any other scheduler whose [preempt] is
    the same and whose [schedule] agrees with this one on the empty
    batch. *)
Theorem schedule_sees_empty_batch (scheduler' : Scheduler T PS)
    (s : State T PS) :
  (∀ ps q now,
      schedule scheduler' ps [] q now = schedule scheduler ps [] q now) →
  (∀ ps b q now bft,
      preempt scheduler' ps b q now bft = preempt scheduler ps b q now bft) →
  loop_body batch_runtimes scheduler' preemption s
  = loop_body batch_runtimes scheduler preemption s.
Proof.
  intros Hsch Hpre. unfold loop_body.
  destruct (drop_and_fetch batch_runtimes s) as [s1|e1] eqn:H1;
    [|reflexivity].
  simpl.
  assert (E2 : check_preemption batch_runtimes scheduler' preemption
                 (classify s) s1
               = check_preemption batch_runtimes scheduler preemption
                   (classify s) s1).
  { unfold check_preemption. rewrite Hpre. reflexivity. }
  rewrite E2.
  destruct (check_preemption batch_runtimes scheduler preemption
              (classify s) s1) as [s2|e2] eqn:H2; [|reflexivity].
  simpl.
  destruct (batch_finished (classify s) s2) as [s3|e3] eqn:H3; [|reflexivity].
  simpl.
  assert (E4 : schedule_next batch_runtimes scheduler' (classify s) s3
               = schedule_next batch_runtimes scheduler (classify s) s3).
  { destruct (decide (classify s = CHECK_PREEMPTION)) as [Hc|Hc].
    - rewrite Hc. reflexivity.
    - assert (Hempty : current_batch s3 = []).
      { apply batch_finished_history in H3
          as (_ & [(_ & _ & Hb)|(Hev & ->)]); [exact Hb|].
        rewrite check_preemption_skip in H2 by exact Hc.
        injection H2 as <-.
        apply drop_and_fetch_frame in H1 as (-> & _).
        apply classify_empty.
        destruct (classify s); congruence. }
      unfold schedule_next. rewrite Hempty, Hsch. reflexivity. }
  rewrite E4. reflexivity.
Qed.



End Iteration.

(** ** Requests are neither lost nor duplicated *)

Section Conservation.
Context {T : Type} `{TimeOps T}.
Variable batch_runtimes : gmap Z T.
Context {PS : Type}.
Variable scheduler : Scheduler T PS.
Variable preemption : bool.

Lemma elements_list_to_set_disj (l : list Z) :
  elements (list_to_set_disj l : gmultiset Z) ≡ₚ l.
Proof.
  induction l as [|x l IH].
  - rewrite list_to_set_disj_nil, gmultiset_elements_empty. reflexivity.
  - rewrite list_to_set_disj_cons, gmultiset_elements_disj_union,
      gmultiset_elements_singleton, IH. reflexivity.
Qed.

Lemma perm_of_multiset (l1 l2 : list Z) :
  list_to_set_disj l1 =@{gmultiset Z} list_to_set_disj l2 → l1 ≡ₚ l2.
Proof.
  intros Heq. rewrite <- (elements_list_to_set_disj l1), Heq.
  apply elements_list_to_set_disj.
Qed.

Lemma sq_append_perm key (q : SortedQueue T) r : sq_append key q r ≡ₚ r :: q.
Proof.
  induction q as [|x q IH]; simpl; [reflexivity|].
  destruct (tltb (key r) (key x)); [reflexivity|].
  rewrite IH. apply perm_swap.
Qed.

Lemma foldl_sq_append_perm (q arrived : SortedQueue T) :
  foldl (sq_append deadline) q arrived ≡ₚ q ++ arrived.
Proof.
  revert q. induction arrived as [|x xs IH]; intros q; simpl.
  - rewrite app_nil_r. reflexivity.
  - rewrite IH, sq_append_perm. simpl. apply Permutation_middle.
Qed.

Lemma map_id_get_dropped now (l : list (Request T)) :
  map id (map (λ r, Request_get_dropped r now) l) = map id l.
Proof. induction l as [|x l IH]; simpl; congruence. Qed.

Lemma map_id_schedule now b d (l : list (Request T)) :
  map id (map (λ r, Request_schedule r now b d) l) = map id l.
Proof. induction l as [|x l IH]; simpl; congruence. Qed.

Ltac ids_multiset :=
  apply perm_of_multiset;
  repeat rewrite ?map_app, ?list_to_set_disj_app.

Lemma drop_and_fetch_ids (s s1 : State T PS) :
  drop_and_fetch batch_runtimes s = Ok s1 → all_ids s1 ≡ₚ all_ids s.
Proof.
  unfold drop_and_fetch, all_ids. intros Hs.
  inv_bind Hs. destruct a as [[ids q1] fin1].
  apply drop_requests_inv in Ha as (dropped & Hq & _ & ->).
  destruct (fetch_new_requests_split (current_time s) (future_requests s) q1)
    as (arrived & rest & Hfut & Hrun & _).
  rewrite Hrun in Hs. injection Hs as <-. simpl.
  rewrite Hfut, Hq, foldl_sq_append_perm.
  ids_multiset. rewrite map_id_get_dropped. multiset_solver.
Qed.

Hypothesis policy_ok : policy_conserves scheduler.

Lemma check_preemption_ids event (s s1 : State T PS) :
  check_preemption batch_runtimes scheduler preemption event s = Ok s1 →
  all_ids s1 ≡ₚ all_ids s.
Proof.
  unfold check_preemption, all_ids. intros Hs.
  destruct (bool_decide (event = CHECK_PREEMPTION) && preemption);
    [|injection Hs as <-; reflexivity].
  pose proof (proj2 policy_ok (scheduler_state s) (current_batch s) (queue s)
                (current_time s) (batch_finish_time s)) as Hp.
  destruct (preempt scheduler (scheduler_state s) (current_batch s)
              (queue s) (current_time s) (batch_finish_time s))
    as [[[ps batch] q1] did].
  simpl in Hp. inv_bind Hs. injection Hs as <-. simpl.
  apply list_to_set_disj_perm in Hp.
  revert Hp. repeat rewrite ?map_app, ?list_to_set_disj_app. intros Hp.
  ids_multiset. multiset_solver.
Qed.

Lemma batch_finished_ids event (s s1 : State T PS) :
  batch_finished event s = Ok s1 → all_ids s1 ≡ₚ all_ids s.
Proof.
  unfold batch_finished, all_ids. intros Hs.
  destruct (bool_decide (event = BATCH_FINISHED));
    [|injection Hs as <-; reflexivity].
  destruct (0 <? length (current_batch s))%nat; [|discriminate].
  inv_bind Hs. destruct a as [ids fin1].
  apply drain_appends in Ha as (-> & _ & _).
  injection Hs as <-. simpl.
  ids_multiset. multiset_solver.
Qed.

Lemma schedule_next_ids event (s s1 : State T PS) :
  schedule_next batch_runtimes scheduler event s = Ok s1 →
  all_ids s1 ≡ₚ all_ids s.
Proof.
  unfold schedule_next, all_ids. intros Hs.
  destruct (bool_decide (event ≠ CHECK_PREEMPTION));
    [|injection Hs as <-; reflexivity].
  pose proof (proj1 policy_ok (scheduler_state s) (current_batch s) (queue s)
                (current_time s)) as Hp.
  destruct (schedule scheduler (scheduler_state s) (current_batch s)
              (queue s) (current_time s)) as [[[ps batch] q1] nct].
  simpl in Hp. inv_bind Hs. destruct a as [batch1 bft].
  injection Hs as <-. simpl.
  assert (Hb : map id batch1 = map id batch).
  { destruct (0 <? length batch)%nat.
    - inv_bind Ha. injection Ha as <- <-. apply map_id_schedule.
    - injection Ha as <- <-. reflexivity. }
  apply list_to_set_disj_perm in Hp.
  revert Hp. repeat rewrite ?map_app, ?list_to_set_disj_app. intros Hp.
  ids_multiset. rewrite Hb. multiset_solver.
Qed.

Lemma loop_body_ids (s : State T PS) st :
  loop_body batch_runtimes scheduler preemption s = Ok st →
  all_ids (state_of st) ≡ₚ all_ids s.
Proof.
  intros Hst.
  apply loop_body_Ok in Hst as (s1 & s2 & s3 & s4 & H1 & H2 & H3 & H4 & H5).
  apply drop_and_fetch_ids in H1. apply check_preemption_ids in H2.
  apply batch_finished_ids in H3. apply schedule_next_ids in H4.
  apply advance_frame in H5 as (E1 & E2 & E3 & E4 & _).
  rewrite <- H1, <- H2, <- H3, <- H4.
  unfold all_ids. rewrite E1, E2, E3, E4. reflexivity.
Qed.

(** X4. No request is lost or duplicated: along any run with a policy
    that only moves requests between the batch and the waiting container,
    the ids held by the four containers together (not yet arrived,
    waiting, in flight, finished) are the same, with the same
    multiplicities, as at the start. *)
Theorem ids_are_conserved n (s : State T PS) st :
  run batch_runtimes scheduler preemption n s = Ok st →
  all_ids (state_of st) ≡ₚ all_ids s.
Proof.
  revert s. induction n as [|n IH]; intros s Hrun; simpl in Hrun.
  - injection Hrun as <-. reflexivity.
  - inv_bind Hrun. apply loop_body_ids in Ha.
    destruct a as [s'|s'].
    + injection Hrun as <-. exact Ha.
    + rewrite (IH s' Hrun). exact Ha.
Qed.

End Conservation.

(** ** A wake-up that never moves *)

Section Livelock.
Context {T : Type} `{TimeOps T}.
Variable batch_runtimes : gmap Z T.
Context {PS : Type}.
Variable scheduler : Scheduler T PS.

Lemma iterated_0 (s : State T PS) : iterated s 0 = s.
Proof. destruct s. reflexivity. Qed.

Lemma drop_and_fetch_iterated (s : State T PS) k :
  drop_and_fetch batch_runtimes s = Ok s →
  drop_and_fetch batch_runtimes (iterated s k) = Ok (iterated s k).
Proof.
  unfold drop_and_fetch. simpl. intros Hs.
  inv_bind Hs. destruct a as [[ids q1] fin1]. rewrite Ha. simpl.
  destruct (fetch_new_requests (current_time s) (future_requests s) q1)
    as [[ids' fut'] q2].
  injection Hs as Hs.
  pose proof (f_equal queue Hs) as E1.
  pose proof (f_equal future_requests Hs) as E2.
  pose proof (f_equal finished_requests Hs) as E3.
  simpl in E1, E2, E3. subst q2 fut' fin1. reflexivity.
Qed.

Lemma stale_wakeup_step (s : State T PS) k :
  classify s = CHECK_PREEMPTION →
  drop_and_fetch batch_runtimes s = Ok s →
  next_check_time s = Some (current_time s) →
  tltb (batch_finish_time s) (current_time s) = false →
  tltb (match future_requests s with
        | req :: _ => arrival_time req
        | [] => tinf
        end) (current_time s) = false →
  teqb (current_time s) tinf = false →
  loop_body batch_runtimes scheduler false (iterated s k)
  = Ok (Continue (iterated s (S k))).
Proof.
  intros Hc Hadm Hn Hb Ha Hinf.
  rewrite loop_body_check_disabled by exact Hc.
  rewrite (drop_and_fetch_iterated s k Hadm). simpl.
  unfold advance. simpl.
  assert (Hlen : (length (current_batch s) =? 0)%nat = false).
  { apply Nat.eqb_neq. intros Hz. apply length_zero_iff_nil in Hz.
    eapply classify_nonempty; [|exact Hz]. congruence. }
  rewrite Hlen, andb_false_r, Hn. simpl.
  rewrite Hinf, andb_false_r. simpl.
  unfold min3. rewrite Hb, Ha. unfold iterated. rewrite Hn. reflexivity.
Qed.

(** X12. A wake-up time is kept until the next [schedule] call, so a
    wake-up that falls before the end of the batch in flight stops the
    clock: once the loop, with preemption disabled, reaches that instant
    with nothing left to drop or fetch, every further iteration leaves the
    state as it is but for the iteration count; the clock never reaches
    the batch finish time and the loop never ends. *)
Theorem stale_wakeup_stops_the_clock (s : State T PS) n :
  classify s = CHECK_PREEMPTION →
  drop_and_fetch batch_runtimes s = Ok s →
  next_check_time s = Some (current_time s) →
  tltb (batch_finish_time s) (current_time s) = false →
  tltb (match future_requests s with
        | req :: _ => arrival_time req
        | [] => tinf
        end) (current_time s) = false →
  teqb (current_time s) tinf = false →
  run batch_runtimes scheduler false n s = Ok (Continue (iterated s n)).
Proof.
  intros Hc Hadm Hn Hb Ha Hinf.
  assert (Hgen : ∀ n k,
             run batch_runtimes scheduler false n (iterated s k)
             = Ok (Continue (iterated s (n + k)))).
  { clear n. induction n as [|n IH]; intros k; simpl; [reflexivity|].
    rewrite (stale_wakeup_step s k Hc Hadm Hn Hb Ha Hinf). simpl.
    rewrite IH. rewrite Nat.add_succ_r. reflexivity. }
  specialize (Hgen n 0%nat). rewrite iterated_0, Nat.add_0_r in Hgen.
  exact Hgen.
Qed.

End Livelock.

(** ** The clock and the batch in flight *)

Section ClockInvariant.
Context {T : Type} `{TimeOps T} `{!TimeOrder T}.
Variable batch_runtimes : gmap Z T.
Context {PS : Type}.
Variable scheduler : Scheduler T PS.
Variable preemption : bool.


End ClockInvariant.

(** ** Set-up *)

Section SetUpMore.
Context {T : Type} `{TimeOps T}.
Context {PS : Type}.
Variable SimpleScheduler DynamicScheduler : Z → gmap Z T → Scheduler T PS * PS.

(** X14. The validation accepts a command line exactly when the parameter
    of the selected trace variation, the SLO factor and the maximum batch
    size are all positive (not [<= 0]); the parameter of the variation that
    is not selected is not looked at. *)
Theorem validate_accepts_iff (args : Args T) :
  validate args = None
  ↔ match args_vary_trace args with
    | compress => tleb (args_compress_ratio args) tzero = false
    | multi_user => 0 < args_num_user args
    end
    ∧ tleb (args_slo_factor args) tzero = false
    ∧ 0 < args_max_batch_size args.
Proof.
  unfold validate.
  destruct (args_vary_trace args); simpl;
    destruct (tleb (args_compress_ratio args) tzero);
    destruct (args_num_user args <=? 0) eqn:Hu;
    destruct (tleb (args_slo_factor args) tzero);
    destruct (args_max_batch_size args <=? 0) eqn:Hm; simpl;
    rewrite ?Z.leb_le, ?Z.leb_gt in Hu, Hm;
    split; try discriminate; try (intros (? & ? & ?)); try lia;
    try discriminate; auto.
Qed.

Lemma load_profile_snoc (rows : list (Z * T)) k v :
  load_profile (rows ++ [(k, v)]) = <[k := v]> (load_profile rows).
Proof. unfold load_profile. rewrite foldl_app. reflexivity. Qed.

(** X15. Reading the profile keeps, for each batch size, the runtime of
    the last row with that size: a row replaces what earlier rows gave for
    its size and nothing else, and a size that no row mentions has no
    entry. *)
Theorem load_profile_last_row_wins (rows : list (Z * T)) k v :
  load_profile (rows ++ [(k, v)]) !! k = Some v
  ∧ (∀ k', k' ≠ k →
       load_profile (rows ++ [(k, v)]) !! k' = load_profile rows !! k')
  ∧ (load_profile rows !! k = None ↔ k ∉ map fst rows).
Proof.
  rewrite load_profile_snoc. split; [apply lookup_insert_eq|]. split.
  - intros k' Hne. apply lookup_insert_ne. congruence.
  - induction rows as [|[k0 v0] rows IH] using rev_ind.
    + split; [intros _; apply not_elem_of_nil | reflexivity].
    + rewrite load_profile_snoc, map_app. simpl.
      rewrite elem_of_app, list_elem_of_singleton.
      destruct (decide (k0 = k)) as [->|Hne].
      * rewrite lookup_insert_eq. split; [discriminate | tauto].
      * rewrite lookup_insert_ne by exact Hne. rewrite IH.
        split; [intros Hn [Hin|Heq]; [tauto | congruence] | tauto].
Qed.

(** X16. An empty trace is fatal before the loop starts, whatever the
    profile holds: with a valid command line and no request to create (no
    arrival times, or an SLO file without rows), reading the first arrival
    time fails with an [IndexError], in the offline mode too. *)
Theorem empty_trace_raises_IndexError (args : Args T) rows arrival_times fuel :
  validate args = None →
  match args_slo_csv args with
  | Some csv => csv = []
  | None => arrival_times = []
  end →
  main SimpleScheduler DynamicScheduler args rows arrival_times fuel
  = Crashed IndexError.
Proof.
  intros Hv Hempty. unfold main. rewrite Hv. unfold create_requests.
  destruct (args_slo_csv args) as [csv|]; subst; simpl;
    (destruct (args_scheduler args);
     [destruct (SimpleScheduler (args_max_batch_size args)
                  (load_profile rows))
     |destruct (DynamicScheduler (args_max_batch_size args)
                  (load_profile rows))]);
    reflexivity.
Qed.

End SetUpMore.

(** ** The requests of a run *)

Section Trace.
Context {T : Type} `{TimeOps T}.
Variable batch_runtimes : gmap Z T.

Lemma foldl_sq_append_key_perm key (q l : SortedQueue T) :
  foldl (sq_append key) q l ≡ₚ q ++ l.
Proof.
  revert q. induction l as [|x xs IH]; intros q; simpl.
  - rewrite app_nil_r. reflexivity.
  - rewrite IH, sq_append_perm. simpl. apply Permutation_middle.
Qed.

Lemma requests_from_trace_from (args : Args T) d1 i arrival_times fut0 :
  batch_runtimes !! 1 = Some d1 →
  ((0 <? args_offline_num_reqs args) = true
   → i < args_offline_num_reqs args) →
  requests_from_trace batch_runtimes args i arrival_times fut0
  = Ok (foldl (sq_append arrival_time) fut0
          (imap (λ j a, fresh d1
                          (if args_offline_num_reqs args =? 0 then a
                           else tzero)
                          (i + Z.of_nat j) (args_slo_factor args))
                (if 0 <? args_offline_num_reqs args
                 then take (Z.to_nat (args_offline_num_reqs args - i))
                           arrival_times
                 else arrival_times))).
Proof.
  intros Hd1. revert i fut0.
  induction arrival_times as [|a rest IH]; intros i fut0 Hi; simpl.
  - destruct (0 <? args_offline_num_reqs args); rewrite ?take_nil; reflexivity.
  - unfold Request_init, runtime. rewrite Hd1. simpl.
    destruct (0 <? args_offline_num_reqs args) eqn:Hoff; simpl.
    + specialize (Hi eq_refl).
      destruct (Z.to_nat (args_offline_num_reqs args - i)) as [|k] eqn:Hk;
        [lia|].
      simpl. rewrite Z.add_0_r.
      destruct (args_offline_num_reqs args - 1 <=? i) eqn:Hlast.
      * apply Z.leb_le in Hlast. assert (k = 0%nat) as -> by lia.
        rewrite take_0. reflexivity.
      * apply Z.leb_gt in Hlast.
        rewrite IH by (intros _; lia).
        replace (Z.to_nat (args_offline_num_reqs args - (i + 1))) with k
          by lia.
        f_equal. f_equal. apply imap_ext. intros j x _. simpl.
        f_equal. lia.
    + rewrite Z.add_0_r. rewrite IH by discriminate.
      f_equal. f_equal. apply imap_ext. intros j x _. simpl.
      f_equal. lia.
Qed.

(** X17. From a trace, and with the size-1 entry in the profile, the
    set-up creates one request per arrival time, numbered from 0 in trace
    order, all with the SLO factor of the command line.  With
    [--offline-num-reqs N], [N > 0], it stops after [N] requests and gives
    every one of them arrival time 0; with a negative value every arrival
    time is replaced by 0 but none is left out. *)
Theorem requests_from_trace_creates (args : Args T) d1 arrival_times :
  batch_runtimes !! 1 = Some d1 →
  ∃ fut,
    requests_from_trace batch_runtimes args 0 arrival_times [] = Ok fut
    ∧ fut ≡ₚ created_from_trace d1 args arrival_times.
Proof.
  intros Hd1. eexists. split.
  - apply (requests_from_trace_from args d1 0 arrival_times [] Hd1).
    intros Hoff. apply Z.ltb_lt in Hoff. exact Hoff.
  - rewrite foldl_sq_append_key_perm. simpl. unfold created_from_trace.
    rewrite Z.sub_0_r. reflexivity.
Qed.

(** X18. [Request.preempt] undoes [Request.schedule]: scheduling a request
    that is not scheduled and preempting it again gives back the request
    as it was; and a second [schedule] overwrites the stamps of the first.
    (So a request preempted out of a batch carries no trace of it, and a
    request re-stamped by the engine carries the last stamps only.) *)
Theorem preempt_undoes_schedule :
  (∀ (r : Request T) now b d,
      queue_time r = None → batch_size r = None →
      execution_time r = None → finish_time r = None →
      Request_preempt (Request_schedule r now b d) = r)
  ∧ (∀ (r : Request T) now b d,
        Request_preempt (Request_schedule r now b d) = Request_preempt r)
  ∧ (∀ (r : Request T) t1 b1 d1 t2 b2 d2,
        Request_schedule (Request_schedule r t1 b1 d1) t2 b2 d2
        = Request_schedule r t2 b2 d2).
Proof.
  split; [|split; intros; reflexivity].
  intros r now b d Hq Hb He Hf. destruct r. simpl in *.
  unfold Request_preempt, Request_schedule. simpl.
  rewrite Hq, Hb, He, Hf. reflexivity.
Qed.

End Trace.

(** ** The offline mode *)

Section Offline.
Context {T : Type} `{TimeOps T}.
Context {PS : Type}.
Variable SimpleScheduler DynamicScheduler : Z → gmap Z T → Scheduler T PS * PS.

Lemma Forall_imap_all {A B} (P : B → Prop) (f : nat → A → B) (l : list A) :
  (∀ j a, P (f j a)) → Forall P (imap f l).
Proof.
  revert f. induction l as [|x l IH]; intros f Hf; simpl; constructor.
  - apply Hf.
  - apply IH. intros j a. apply Hf.
Qed.

Lemma created_offline_at_zero d1 (args : Args T) arrival_times :
  0 < args_offline_num_reqs args →
  Forall (λ r, arrival_time r = tzero)
         (created_from_trace d1 args arrival_times).
Proof.
  intros HN. unfold created_from_trace. apply Forall_imap_all.
  intros j a. simpl.
  destruct (args_offline_num_reqs args =? 0) eqn:E; [|reflexivity].
  apply Z.eqb_eq in E. lia.
Qed.

Lemma created_offline_nonempty d1 (args : Args T) arrival_times :
  0 < args_offline_num_reqs args →
  arrival_times ≠ [] →
  created_from_trace d1 args arrival_times ≠ [].
Proof.
  intros HN Hne. unfold created_from_trace.
  destruct arrival_times as [|a rest]; [congruence|].
  apply Z.ltb_lt in HN as HN'. rewrite HN'.
  destruct (Z.to_nat (args_offline_num_reqs args)) eqn:Hk; [lia|].
  simpl. discriminate.
Qed.

Lemma fetch_all_arrived now (fut : SortedQueue T) :
  Forall (λ r, tleb (arrival_time r) now = true) fut →
  fetch_new_requests now fut []
  = (map id fut, [], foldl (sq_append deadline) [] fut).
Proof.
  intros Hall.
  destruct (fetch_new_requests_split now fut [])
    as (arrived & rest & Hfut & Hrun & _ & Hhead).
  destruct rest as [|r rest].
  - rewrite app_nil_r in Hfut. subst arrived. exact Hrun.
  - exfalso. subst fut. apply Forall_app in Hall as [_ Hall].
    apply Forall_cons in Hall as [Hr _]. congruence.
Qed.

(** X19. The offline mode never enters the event loop: with a positive
    [--offline-num-reqs] (and a trace, a valid command line and the size-1
    profile entry) the program makes the requests it created, all arriving
    at 0, wait together at time 0, calls the policy's [offline_schedule]
    once on an empty batch, that waiting container and an empty history,
    and ends with the history that call returns. *)
Theorem offline_mode_hands_over_every_request
    (args : Args T) rows arrival_times fuel d1 :
  validate args = None →
  load_profile rows !! 1 = Some d1 →
  args_slo_csv args = None →
  0 < args_offline_num_reqs args →
  arrival_times ≠ [] →
  tleb tzero tzero = true →
  ∃ q,
    q ≡ₚ created_from_trace d1 args arrival_times
    ∧ main SimpleScheduler DynamicScheduler args rows arrival_times fuel
      = Completed
          (offline_schedule
             (match args_scheduler args with
              | simple => SimpleScheduler (args_max_batch_size args)
                            (load_profile rows)
              | dynamic => DynamicScheduler (args_max_batch_size args)
                             (load_profile rows)
              end).1
             (match args_scheduler args with
              | simple => SimpleScheduler (args_max_batch_size args)
                            (load_profile rows)
              | dynamic => DynamicScheduler (args_max_batch_size args)
                             (load_profile rows)
              end).2
             [] q tzero []).2.
Proof.
  intros Hv Hd1 Hcsv HN Hne H00.
  destruct (requests_from_trace_creates (load_profile rows) args d1
              arrival_times Hd1) as (fut & Hfut & Hperm).
  pose proof (created_offline_at_zero d1 args arrival_times HN) as Hzero.
  rewrite <- Hperm in Hzero.
  assert (Hfne : fut ≠ []).
  { intros ->. apply Permutation_nil_l in Hperm.
    symmetry in Hperm.
    exact (created_offline_nonempty d1 args arrival_times HN Hne Hperm). }
  exists (foldl (sq_append deadline) [] fut). split.
  - rewrite foldl_sq_append_key_perm. simpl. exact Hperm.
  - unfold main. rewrite Hv. unfold create_requests. rewrite Hcsv, Hfut.
    destruct (match args_scheduler args with
              | simple => SimpleScheduler (args_max_batch_size args)
                            (load_profile rows)
              | dynamic => DynamicScheduler (args_max_batch_size args)
                             (load_profile rows)
              end) as [sch ps].
    destruct fut as [|r fut']; [congruence|].
    unfold initial_state. cbv beta iota. cbn [current_time].
    apply Z.ltb_lt in HN. rewrite HN.
    assert (Hr : arrival_time r = tzero).
    { apply Forall_cons in Hzero as [Hr _]. exact Hr. }
    rewrite Hr.
    rewrite fetch_all_arrived.
    + cbn [fst snd].
      destruct (offline_schedule sch ps [] _ tzero []) as [[[ps' b'] q'] fin'].
      reflexivity.
    + eapply Forall_impl; [exact Hzero|]. intros x Hx. simpl in Hx.
      rewrite Hx. exact H00.
Qed.

End Offline.

(** ** The properties above on the test scenarios *)

Lemma fill_policy_conserves {T} `{TimeOps T} max (wakeup : T → T) :
  policy_conserves (fill_policy max wakeup).
Proof.
  split; simpl; unfold fill_schedule, no_preempt; simpl.
  - intros _ batch q _. rewrite <- app_assoc, take_drop. reflexivity.
  - reflexivity.
Qed.

Lemma ids_are_conserved_witness :
  policy_conserves (fill_policy (T:=float) 2 (λ _, infinity))
  ∧ match run profile_AB (fill_policy 2 (λ _, infinity)) false 3 scenario_B
    with
    | Ok st => all_ids (state_of st) ≡ₚ all_ids scenario_B
    | Raise _ => False
    end.
Proof.
  split; [apply fill_policy_conserves|].
  destruct (run profile_AB (fill_policy 2 (λ _, infinity)) false 3 scenario_B)
    as [st|e] eqn:E.
  - exact (ids_are_conserved profile_AB (fill_policy 2 (λ _, infinity)) false
             (fill_policy_conserves 2%nat (λ _, infinity)) 3%nat scenario_B
             st E).
  - vm_compute in E. discriminate E.
Defined.

Lemma batch_finished_all_or_assert_witness :
  current_batch mid_batch ≠ []
  ∧ batch_finished BATCH_FINISHED mid_batch = Raise finish_time_assertion.
Proof.
  split; [discriminate|].
  exact (batch_finished_all_or_assert mid_batch ltac:(discriminate)).
Defined.

Lemma wakeup_never_read_unbound_witness :
  initial_state (future_requests scenario_B) tt = Ok scenario_B
  ∧ run ∅ (fill_policy 2 (λ _, infinity)) false 1 scenario_B
    = Raise (KeyError 1)
  ∧ KeyError 1 ≠ NameError "next_check_time".
Proof.
  split; [reflexivity|]. split; [reflexivity|].
  exact (wakeup_never_read_unbound ∅ (fill_policy 2 (λ _, infinity)) false
           (future_requests scenario_B) tt scenario_B 1%nat (KeyError 1)
           "next_check_time" eq_refl eq_refl).
Defined.

Lemma empty_batch_assertion_never_fires_witness :
  loop_body ∅ (fill_policy 2 (λ _, infinity)) false scenario_B
  = Raise (KeyError 1)
  ∧ KeyError 1 ≠ empty_batch_assertion.
Proof.
  split; [reflexivity|].
  exact (empty_batch_assertion_never_fires ∅ (fill_policy 2 (λ _, infinity))
           false scenario_B (KeyError 1) eq_refl).
Defined.

Lemma one_policy_call_per_iteration_witness :
  match loop_body profile_AB (fill_policy 2 (λ _, infinity)) true mid_batch
  with
  | Ok st =>
      calls (state_of st)
      = calls mid_batch ++ calls_of (classify mid_batch) true
  | Raise _ => False
  end.
Proof.
  destruct (loop_body profile_AB (fill_policy 2 (λ _, infinity)) true
              mid_batch) as [st|e] eqn:E.
  - exact (one_policy_call_per_iteration profile_AB
             (fill_policy 2 (λ _, infinity)) true mid_batch st E).
  - vm_compute in E. discriminate E.
Defined.

Lemma schedule_sees_empty_batch_witness :
  (∀ ps q now,
      schedule (fill_if_empty_policy (T:=float) 2 (λ _, infinity)) ps [] q now
      = schedule (fill_policy 2 (λ _, infinity)) ps [] q now)
  ∧ loop_body profile_AB (fill_if_empty_policy 2 (λ _, infinity)) false
              scenario_B
    = loop_body profile_AB (fill_policy 2 (λ _, infinity)) false scenario_B.
Proof.
  split; [reflexivity|].
  exact (schedule_sees_empty_batch profile_AB (fill_policy 2 (λ _, infinity))
           false (fill_if_empty_policy 2 (λ _, infinity)) scenario_B
           (λ _ _ _, eq_refl) (λ _ _ _ _ _, eq_refl)).
Defined.


Lemma exact_test_hypotheses :
  wakeup_not_in_past (fill_policy (T:=xtime) 2 (λ now, now))
  ∧ durations_nonneg profile_AB_exact
  ∧ clock_behind scenario_far_apart_exact.
Proof.
  split; [|split].
  - intros ps b q now. exact (tleb_refl now).
  - apply (bool_decide_unpack
             (map_Forall (λ (_ : Z) (d : xtime), tleb tzero d = true)
                         profile_AB_exact)).
    vm_compute. exact I.
  - split; [reflexivity | discriminate].
Qed.


Lemma stale_wakeup_stops_the_clock_witness :
  classify stale_wakeup = CHECK_PREEMPTION
  ∧ drop_and_fetch profile_AB stale_wakeup = Ok stale_wakeup
  ∧ run profile_AB (fill_policy 2 (λ _, 3%float)) false 5 stale_wakeup
    = Ok (Continue (iterated stale_wakeup 5)).
Proof.
  split; [reflexivity|]. split; [reflexivity|].
  exact (stale_wakeup_stops_the_clock profile_AB
           (fill_policy 2 (λ _, 3%float)) stale_wakeup 5%nat
           eq_refl eq_refl eq_refl eq_refl eq_refl eq_refl).
Defined.


Lemma empty_trace_raises_IndexError_witness :
  validate args_batch_2 = None
  ∧ main FillScheduler FillScheduler args_batch_2 [] [] 10
    = Crashed IndexError.
Proof.
  split; [reflexivity|].
  exact (empty_trace_raises_IndexError FillScheduler FillScheduler
           args_batch_2 [] [] 10%nat eq_refl eq_refl).
Defined.

Lemma requests_from_trace_creates_witness :
  profile_AB !! 1 = Some 10%float
  ∧ ∃ fut,
      requests_from_trace profile_AB args_offline_2 0
        [3%float; 4%float; 5%float] [] = Ok fut
      ∧ fut ≡ₚ created_from_trace 10%float args_offline_2
                 [3%float; 4%float; 5%float].
Proof.
  split; [reflexivity|].
  exact (requests_from_trace_creates profile_AB args_offline_2 10%float
           [3%float; 4%float; 5%float] eq_refl).
Defined.

Lemma preempt_undoes_schedule_witness :
  Request_preempt
    (Request_schedule (fresh 10%float 0%float 0 5%float) 1%float 2 15%float)
  = fresh 10%float 0%float 0 5%float.
Proof.
  exact (proj1 (preempt_undoes_schedule (T:=float))
           (fresh 10%float 0%float 0 5%float) 1%float 2%nat 15%float
           eq_refl eq_refl eq_refl eq_refl).
Defined.

Lemma offline_mode_hands_over_every_request_witness :
  validate args_offline_2 = None
  ∧ ∃ q,
      q ≡ₚ created_from_trace 10%float args_offline_2
             [3%float; 4%float; 5%float]
      ∧ main FillScheduler FillScheduler args_offline_2
             [(1, 10%float); (2, 15%float)] [3%float; 4%float; 5%float] 0
        = Completed
            (offline_schedule
               (FillScheduler 2 (load_profile [(1, 10%float); (2, 15%float)])).1
               (FillScheduler 2 (load_profile [(1, 10%float); (2, 15%float)])).2
               [] q 0%float []).2.
Proof.
  split; [reflexivity|].
  exact (offline_mode_hands_over_every_request FillScheduler FillScheduler
           args_offline_2 [(1, 10%float); (2, 15%float)]
           [3%float; 4%float; 5%float] 0%nat 10%float
           eq_refl eq_refl eq_refl eq_refl ltac:(discriminate) eq_refl).
Defined.

(** ** Requests from an SLO file *)

Section Csv.
Context {T : Type} `{TimeOps T}.
Variable batch_runtimes : gmap Z T.

Lemma requests_from_csv_from (args : Args T) d1 rows fut0 :
  batch_runtimes !! 1 = Some d1 →
  args_offline_num_reqs args = 0 →
  requests_from_csv batch_runtimes args rows fut0
  = Ok (foldl (sq_append arrival_time) fut0
          (map (λ row, fresh d1 row.2 row.1.1 row.1.2) rows)).
Proof.
  intros Hd1 Hoff. revert fut0.
  induction rows as [|[[i slo] a] rest IH]; intros fut0; simpl;
    [reflexivity|].
  unfold Request_init, runtime. rewrite Hd1, Hoff. simpl.
  rewrite IH. reflexivity.
Qed.

(** X20. With [--slo-csv] and no offline mode, the set-up creates one
    request per row of the file, with the id, the SLO factor and the
    arrival time of that row: the SLO factor of the command line, the only
    one the validation checks, is not used, and the factors of the file
    are taken as they come. *)
Theorem requests_from_csv_creates (args : Args T) d1 rows arrival_times :
  batch_runtimes !! 1 = Some d1 →
  args_offline_num_reqs args = 0 →
  args_slo_csv args = Some rows →
  ∃ fut,
    create_requests batch_runtimes args arrival_times = Ok fut
    ∧ fut ≡ₚ map (λ row, fresh d1 row.2 row.1.1 row.1.2) rows.
Proof.
  intros Hd1 Hoff Hcsv. unfold create_requests. rewrite Hcsv.
  rewrite (requests_from_csv_from args d1 rows [] Hd1 Hoff).
  eexists. split; [reflexivity|].
  rewrite foldl_sq_append_key_perm. reflexivity.
Qed.

End Csv.

Lemma requests_from_csv_creates_witness :
  profile_AB !! 1 = Some 10%float
  ∧ ∃ fut,
      create_requests profile_AB args_csv [7%float] = Ok fut
      ∧ fut ≡ₚ map (λ row, fresh 10%float row.2 row.1.1 row.1.2)
                   [(4, (-1)%float, 2%float); (9, 3%float, 1%float)].
Proof.
  split; [reflexivity|].
  exact (requests_from_csv_creates profile_AB args_csv 10%float
           [(4, (-1)%float, 2%float); (9, 3%float, 1%float)] [7%float]
           eq_refl eq_refl eq_refl).
Defined.
